(** * Reactive bindings and shutdown-alarm escalation of phosphor-fan-presence

    The parts of the repository embedded here:

    - [ShutdownAlarm]: the alarm map of [ShutdownAlarmMonitor]
      ([std::map<AlarmKey, std::unique_ptr<Timer>> alarms]) and the
      operations declared in shutdown_alarm_monitor.hpp;
    - [Functor]: the match-filter functors of the fan-control event
      framework ([Properties], [InterfaceAdded], [InterfaceRemoved],
      [NameOwner]), with their signal and group entry points;
    - [FanCtl]: the fanctl command-line tool (fanctl.cpp), as far as it
      gathers data: [justFanName], [getPathsFromIface], [loadDBusData],
      [getStates], [ifaceTypeFromMethod];
    - [Fan]: the fan of a zone (fan.cpp): constructor, [getService],
      [setSpeed].

    [ShutdownAlarmSpec], [FunctorSpec], [FunctorMoreSpec], [FanCtlSpec] and
    [FanSpec] hold what is proved about them. *)

From stdpp Require Import base option list gmap strings.
From Stdlib Require Import NArith Ascii.

Open Scope string_scope.
Open Scope list_scope.

(* ===================================================================== *)
(** * Shutdown-alarm monitor *)
(* ===================================================================== *)

Module ShutdownAlarm.

(** ** Keys of the alarm map *)

(** Modelled from the spec: the components of [AlarmKey], declared in
    types.hpp, which is not among the sources.  A key is (object path,
    alarm class, direction), compared structurally. *)
Inductive ShutdownType := soft | hard.

(** Modelled from the spec: the direction of an alarm, also from types.hpp. *)
Inductive AlarmType := low | high.

#[global] Instance ShutdownType_eq_dec : EqDecision ShutdownType.
Proof. solve_decision. Defined.

#[global] Instance AlarmType_eq_dec : EqDecision AlarmType.
Proof. solve_decision. Defined.

#[global] Instance ShutdownType_countable : Countable ShutdownType.
Proof.
  refine (inj_countable' (fun c => match c with soft => false | hard => true end)
                         (fun b => if b then hard else soft) _).
  by intros [].
Defined.

#[global] Instance AlarmType_countable : Countable AlarmType.
Proof.
  refine (inj_countable' (fun c => match c with low => false | high => true end)
                         (fun b => if b then high else low) _).
  by intros [].
Defined.

Abbreviation AlarmKey := (string * ShutdownType * AlarmType)%type.

Definition shutdownTypeOf (k : AlarmKey) : ShutdownType := snd (fst k).

(** ** Timers, configuration, event log *)

(** Modelled from the spec: the two delays, configured independently for
    the soft and the hard class (milliseconds). *)
Record Config := mkConfig { softDelayMs : N; hardDelayMs : N }.

Definition delayFor (cfg : Config) (c : ShutdownType) : N :=
  match c with soft => softDelayMs cfg | hard => hardDelayMs cfg end.

(** The [sdeventplus::utility::Timer<ClockId::Monotonic>] of the map, as far
    as the statements need it: the key it escalates and the delay it was
    armed with. *)
Record Timer := mkTimer { timerKey : AlarmKey; timerDelayMs : N }.

Definition newTimer (cfg : Config) (k : AlarmKey) : Timer :=
  mkTimer k (delayFor cfg (shutdownTypeOf k)).

(** Modelled from the spec: the three event-log records of the engine. *)
Inductive LogRecord :=
| AlarmAsserted (k : AlarmKey)
| AlarmCleared (k : AlarmKey)
| TimerExpired (k : AlarmKey).

(** ** Monitor state

    [alarms] is the member of the class: a key maps to [Some t] when its
    timer runs and to [None] for the null pointer.  [powerOn] is what the
    power-state provider currently reports.  [journal] and [shutdowns] record
    the event logs created and the power-off requests issued.  [lastValue]
    is bookkeeping for the statements below: the value most recently handed
    to [checkAlarm] for each key. *)
Record Monitor := mkMonitor {
  alarms : gmap AlarmKey (option Timer);
  powerOn : bool;
  journal : list LogRecord;
  shutdowns : nat;
  lastValue : gmap AlarmKey bool
}.

Definition timerOf (k : AlarmKey) (s : Monitor) : option Timer :=
  match alarms s !! k with
  | Some (Some t) => Some t
  | _ => None
  end.

Definition hasTimer (k : AlarmKey) (s : Monitor) : bool :=
  bool_decide (is_Some (timerOf k s)).

(** Bookkeeping only: remember the value seen for the key. *)
Definition noteValue (value : bool) (k : AlarmKey) (s : Monitor) : Monitor :=
  mkMonitor (alarms s) (powerOn s) (journal s) (shutdowns s)
            (<[k := value]> (lastValue s)).

(** Modelled from the spec: create and arm the timer of a key and log that
    the alarm is asserted. *)
Definition startTimer (cfg : Config) (k : AlarmKey) (s : Monitor) : Monitor :=
  mkMonitor (<[k := Some (newTimer cfg k)]> (alarms s)) (powerOn s)
            (journal s ++ [AlarmAsserted k]) (shutdowns s) (lastValue s).

(** Modelled from the spec: cancel and remove the timer of a key and log
    that the alarm is cleared. *)
Definition stopTimer (k : AlarmKey) (s : Monitor) : Monitor :=
  mkMonitor (<[k := None]> (alarms s)) (powerOn s)
            (journal s ++ [AlarmCleared k]) (shutdowns s) (lastValue s).

(** Modelled from the spec: the body of [ShutdownAlarmMonitor::checkAlarm]
    (only its declaration is in shutdown_alarm_monitor.hpp).  A true value
    with power on and no timer for the key arms a timer with the delay of
    the key's class and logs the assertion; a false value with a timer
    cancels and removes it and logs the clearing; anything else changes
    nothing. *)
Definition checkAlarm (cfg : Config) (value : bool) (k : AlarmKey)
    (s : Monitor) : Monitor :=
  let s := noteValue value k s in
  if value then
    if powerOn s && negb (hasTimer k s) then startTimer cfg k s else s
  else
    if hasTimer k s then stopTimer k s else s.

(** Modelled from the spec: one round of the loop of
    [ShutdownAlarmMonitor::checkAlarms].  The key is read again from the bus
    ([sensors k], [None] when the read fails) and handed to [checkAlarm]; a
    failed read skips the key. *)
Definition recheck (cfg : Config) (sensors : AlarmKey -> option bool)
    (acc : Monitor) (k : AlarmKey) : Monitor :=
  match sensors k with
  | Some value => checkAlarm cfg value k acc
  | None => acc
  end.

(** Modelled from the spec: the body of [ShutdownAlarmMonitor::checkAlarms],
    a loop over every key of the map. *)
Definition checkAlarms (cfg : Config) (sensors : AlarmKey -> option bool)
    (s : Monitor) : Monitor :=
  foldl (recheck cfg sensors) s (fst <$> map_to_list (alarms s)).

(** Modelled from the spec: [alarms.emplace(key, nullptr)], where an
    existing entry stays as it is. *)
Definition emplaceNull (m : gmap AlarmKey (option Timer)) (k : AlarmKey)
    : gmap AlarmKey (option Timer) :=
  match m !! k with
  | Some _ => m
  | None => <[k := None]> m
  end.

(** Modelled from the spec: the body of [ShutdownAlarmMonitor::findAlarms].
    Every alarm found on the bus enters the map without a timer; a key
    already present is left as it is. *)
Definition findAlarms (found : list AlarmKey) (s : Monitor) : Monitor :=
  mkMonitor (foldl emplaceNull (alarms s) found)
            (powerOn s) (journal s) (shutdowns s) (lastValue s).

(** Modelled from the spec: every timer of the map is dropped; the keys
    stay. *)
Definition cancelAll (m : gmap AlarmKey (option Timer))
    : gmap AlarmKey (option Timer) :=
  (fun _ => None) <$> m.

(** Modelled from the spec: the body of
    [ShutdownAlarmMonitor::powerStateChanged].  Power on checks all alarms;
    power off drops every running timer and logs nothing. *)
Definition powerStateChanged (cfg : Config) (powerStateOn : bool)
    (sensors : AlarmKey -> option bool) (s : Monitor) : Monitor :=
  if powerStateOn then
    checkAlarms cfg sensors
      (mkMonitor (alarms s) true (journal s) (shutdowns s) (lastValue s))
  else
    mkMonitor (cancelAll (alarms s)) false (journal s) (shutdowns s)
              (lastValue s).

(** Modelled from the spec: the timer expiry callback (not declared in the
    header).  It requests the power off once (the request is taken to
    succeed), logs the expiry and frees the slot.  A cancelled timer never
    fires, so an expiry for a key without a timer does nothing. *)
Definition timerExpired (k : AlarmKey) (s : Monitor) : Monitor :=
  match timerOf k s with
  | Some _ =>
      mkMonitor (<[k := None]> (alarms s)) (powerOn s)
                (journal s ++ [TimerExpired k]) (S (shutdowns s))
                (lastValue s)
  | None => s
  end.

(** ** Events of the engine *)

(** What the event loop delivers after discovery: an alarm value from a
    signal, a power transition (with what the bus answers to the reads of a
    re-check), the expiry of the timer of a key. *)
Inductive Event :=
| EvCheckAlarm (value : bool) (k : AlarmKey)
| EvPowerState (powerStateOn : bool) (sensors : AlarmKey -> option bool)
| EvTimerExpired (k : AlarmKey).

Definition step (cfg : Config) (s : Monitor) (e : Event) : Monitor :=
  match e with
  | EvCheckAlarm value k => checkAlarm cfg value k s
  | EvPowerState on sensors => powerStateChanged cfg on sensors s
  | EvTimerExpired k => timerExpired k s
  end.

Definition run (cfg : Config) (evs : list Event) (s : Monitor) : Monitor :=
  foldl (step cfg) s evs.

(** Modelled from the spec: the start of the process, discovery into an
    empty map under the power state found. *)
Definition startup (found : list AlarmKey) (power : bool) : Monitor :=
  findAlarms found (mkMonitor ∅ power [] 0 ∅).

(** ** Vocabulary of the statements *)

Definition Sound (s : Monitor) : Prop :=
  forall k, hasTimer k s = true ->
            lastValue s !! k = Some true /\ powerOn s = true.

Definition timerless (m : gmap AlarmKey (option Timer)) : Prop :=
  forall k, m !! k = None \/ m !! k = Some None.

Definition Armed (k : AlarmKey) (s : Monitor) : Prop :=
  lastValue s !! k = Some true -> powerOn s = true -> hasTimer k s = true.

(** The state C1 excludes: tripped under power, and no timer. *)
Definition Stale (k : AlarmKey) (s : Monitor) : Prop :=
  lastValue s !! k = Some true /\ powerOn s = true /\ hasTimer k s = false.

(** An event that settles a key, whatever the state before it: a
    [checkAlarm] call for the key, a power-off, and a power-on whose
    re-check reads the key. *)
Definition settles (k : AlarmKey) (e : Event) : bool :=
  match e with
  | EvCheckAlarm _ k' => bool_decide (k' = k)
  | EvPowerState on sensors => negb on || bool_decide (is_Some (sensors k))
  | EvTimerExpired _ => false
  end.

(** An event at which the escalation of a key lapses: its running timer
    expires, or power comes back on while the key is last known tripped and
    the re-check cannot read it. *)
Definition lapses (k : AlarmKey) (s : Monitor) (e : Event) : bool :=
  match e with
  | EvCheckAlarm _ _ => false
  | EvPowerState on sensors =>
      on && bool_decide (sensors k = None) && negb (powerOn s)
      && bool_decide (lastValue s !! k = Some true)
  | EvTimerExpired k' => bool_decide (k' = k) && hasTimer k s
  end.

(** Whether the escalation of a key has lapsed at the end of a sequence of
    events from [s]: it has when some event lapsed it and no later event
    settled the key.  [flag] is what holds before the first event. *)
Fixpoint lapsed (cfg : Config) (k : AlarmKey) (s : Monitor) (flag : bool)
    (evs : list Event) : bool :=
  match evs with
  | [] => flag
  | e :: rest =>
      lapsed cfg k (step cfg s e)
             (negb (settles k e) && (flag || lapses k s e)) rest
  end.

(** [flag] tells for a key of the registry whether it is stale. *)
Definition Tracked (k : AlarmKey) (s : Monitor) (flag : bool) : Prop :=
  is_Some (alarms s !! k) -> (flag = true <-> Stale k s).

(** Words of C2: when a call starts a timer, when it stops one. *)
Definition starts (value : bool) (k : AlarmKey) (s : Monitor) : bool :=
  value && powerOn s && negb (hasTimer k s).

Definition stops (value : bool) (k : AlarmKey) (s : Monitor) : bool :=
  negb value && hasTimer k s.

Definition keepsPowerOff (e : Event) : bool :=
  match e with
  | EvPowerState on _ => negb on
  | _ => true
  end.

Definition Unpowered (s : Monitor) : Prop :=
  powerOn s = false /\ forall k, hasTimer k s = false.

Definition cfg0 : Config := mkConfig 900000 23000.
Definition keyA : AlarmKey := ("/xyz/openbmc_project/sensors/temp/a", hard, high).
Definition keyB : AlarmKey := ("/xyz/openbmc_project/sensors/temp/b", soft, low).

Definition tripThenPowerCycle : list Event :=
  [EvPowerState false (fun _ => None);
   EvCheckAlarm true keyA;
   EvPowerState true (fun _ => Some true)].

(** The timer of a tripped alarm fires; later the alarm clears and trips
    again. *)
Definition expireThenTripAgain : list Event :=
  [EvCheckAlarm true keyA; EvTimerExpired keyA;
   EvCheckAlarm false keyA; EvCheckAlarm true keyA].

(** The timer fires, power goes off and comes back, and the re-check reads
    the alarm as still tripped. *)
Definition expireThenPowerCycle : list Event :=
  [EvCheckAlarm true keyA; EvTimerExpired keyA;
   EvPowerState false (fun _ => None);
   EvPowerState true (fun _ => Some true)].

Definition trippedBoth : Monitor :=
  checkAlarm cfg0 true keyB
    (checkAlarm cfg0 true keyA (startup [keyA; keyB] true)).

End ShutdownAlarm.

(* ===================================================================== *)
(** * Match-filter functors of the fan-control event framework *)
(* ===================================================================== *)

Module Functor.

(** ** Exceptions

    The catch clauses of the functors name three classes:
    [sdbusplus::exception::SdBusError], [util::DBusError] and
    [util::DBusMethodError] (a [util::DBusError]).  [OtherFault] stands for
    an exception of any other class. *)
Inductive Fault :=
| SdBusError
| DBusError
| DBusMethodError
| OtherFault (what : string).

(** [catch (const sdbusplus::exception::SdBusError&)] followed by
    [catch (const util::DBusError&)]. *)
Definition caughtAsBusError (f : Fault) : bool :=
  match f with
  | SdBusError | DBusError | DBusMethodError => true
  | OtherFault _ => false
  end.

(** [catch (const util::DBusMethodError&)]. *)
Definition caughtAsMethodError (f : Fault) : bool :=
  match f with
  | DBusMethodError => true
  | _ => false
  end.

Inductive Outcome (A : Type) :=
| Done (a : A)
| Threw (f : Fault).
Arguments Done {A} a.
Arguments Threw {A} f.

(** ** What a run of a functor does

    [Arg] is what the handler receives besides the zone.  A call into the
    zone or the bus is recorded with what it returned or threw. *)
Inductive Obs (Arg : Type) :=
| LogErr (text property iface path : string)
| Invoked (a : Arg)
| GetPropertyByName (path iface property : string) (r : Outcome Arg)
| GetService (path iface : string) (r : Outcome string)
| NameHasOwner (name : string) (r : Outcome bool).
Arguments LogErr {Arg} text property iface path.
Arguments Invoked {Arg} a.
Arguments GetPropertyByName {Arg} path iface property r.
Arguments GetService {Arg} path iface r.
Arguments NameHasOwner {Arg} name r.

Record World (Zone Arg : Type) := mkWorld {
  zone : Zone;
  trace : list (Obs Arg)
}.
Arguments mkWorld {Zone Arg} zone trace.
Arguments zone {Zone Arg} w.
Arguments trace {Zone Arg} w.

(** State and exception monad of the functor bodies. *)
Definition M (Zone Arg A : Type) : Type :=
  World Zone Arg -> Outcome A * World Zone Arg.

Definition ret {Zone Arg A} (a : A) : M Zone Arg A :=
  fun w => (Done a, w).

Definition bind {Zone Arg A B} (m : M Zone Arg A) (k : A -> M Zone Arg B)
    : M Zone Arg B :=
  fun w =>
    match m w with
    | (Done a, w') => k a w'
    | (Threw f, w') => (Threw f, w')
    end.

(** [try { body } catch (...) { recover }] for the classes [catches]
    accepts. *)
Definition tryCatch {Zone Arg A} (catches : Fault -> bool)
    (body : M Zone Arg A) (recover : M Zone Arg A) : M Zone Arg A :=
  fun w =>
    match body w with
    | (Done a, w') => (Done a, w')
    | (Threw f, w') => if catches f then recover w' else (Threw f, w')
    end.

Notation "x <- m ;; k" := (bind m (fun x => k))
  (at level 100, m at next level, right associativity).
Notation "m ;;; k" := (bind m (fun _ => k))
  (at level 100, right associativity).

Definition observe {Zone Arg} (o : Obs Arg) : M Zone Arg unit :=
  fun w => (Done tt, mkWorld (zone w) (trace w ++ [o])).

(** A zone operation that may throw, recorded in the trace. *)
Definition onZone {Zone Arg A} (o : Outcome A -> Obs Arg)
    (op : Zone -> Outcome A * Zone) : M Zone Arg A :=
  fun w =>
    let (r, z) := op (zone w) in
    (r, mkWorld z (trace w ++ [o r])).

(** [_handler(zone, a)]. *)
Definition invoke {Zone Arg} (handler : Arg -> Zone -> Outcome unit * Zone)
    (a : Arg) : M Zone Arg unit :=
  onZone (fun _ => Invoked a) (handler a).

Definition liftOutcome {Zone Arg A} (r : Outcome A) : M Zone Arg A :=
  fun w => (r, w).

(** [std::for_each] over a vector. *)
Fixpoint for_each {Zone Arg A} (l : list A) (f : A -> M Zone Arg unit)
    : M Zone Arg unit :=
  match l with
  | [] => ret tt
  | x :: rest => f x ;;; for_each rest f
  end.

(** ** Bus values and messages *)

(** A value as it travels in a D-Bus variant. *)
Inductive WireValue :=
| WBool (b : bool)
| WInt64 (z : Z)
| WUInt64 (n : N)
| WString (s : string).

(** Payload of a PropertiesChanged signal, in reading order. *)
Record PropertiesChangedMsg := mkPropertiesChanged {
  pcInterface : string;
  pcChanged : list (string * WireValue);
  pcInvalidated : list string
}.

(** Payload of an InterfacesAdded signal. *)
Record InterfacesAddedMsg := mkInterfacesAdded {
  iaPath : string;
  iaInterfaces : list (string * list (string * WireValue))
}.

(** Payload of an InterfacesRemoved signal. *)
Record InterfacesRemovedMsg := mkInterfacesRemoved {
  irPath : string;
  irInterfaces : list string
}.

(** Payload of a NameOwnerChanged signal. *)
Record NameOwnerChangedMsg := mkNameOwnerChanged {
  nocName : string;
  nocOldOwner : string;
  nocNewOwner : string
}.

(** A group member is (path, interface, property); [pathPos], [intfPos]
    and [propPos] of types.hpp name its components. *)
Abbreviation Member := (string * string * string)%type.
Abbreviation Group := (list Member).

Definition pathPos (m : Member) : string := fst (fst m).
Definition intfPos (m : Member) : string := snd (fst m).
Definition propPos (m : Member) : string := snd m.

(** ** What the functors use of the zone and of the bus library

    [getPropertyByName] and [getService] are members of [Zone];
    [callNameHasOwner] is [util::SDBusPlus::callMethodAndRead<bool>] of
    NameHasOwner on org.freedesktop.DBus through [zone.getBus()];
    [readVariant] is the bus library's read of one wire value into
    [variant<T>] followed by [variant_ns::get<T>]. *)
Class PropertyAPI (Zone T : Type) := {
  getPropertyByName : string -> string -> string -> Zone -> Outcome T * Zone;
  readVariant : WireValue -> Outcome T
}.

Class BusAPI (Zone : Type) := {
  getService : string -> string -> Zone -> Outcome string * Zone;
  callNameHasOwner : string -> Zone -> Outcome bool * Zone
}.

Section Reading.
Context {Zone T : Type} {api : PropertyAPI Zone T}.

(** [msg.read] of a dictionary of variants into
    [std::map<std::string, variant<T>>]: entries are read in order, and of two
    entries under one name the first stays. *)
Fixpoint readDict (entries : list (string * WireValue))
    : Outcome (gmap string T) :=
  match entries with
  | [] => Done ∅
  | (name, w) :: rest =>
      match readVariant w with
      | Threw f => Threw f
      | Done v =>
          match readDict rest with
          | Threw f => Threw f
          | Done m => Done (<[name := v]> m)
          end
      end
  end.

(** The same for the dictionary of dictionaries of InterfacesAdded. *)
Fixpoint readNested (entries : list (string * list (string * WireValue)))
    : Outcome (gmap string (gmap string T)) :=
  match entries with
  | [] => Done ∅
  | (intf, props) :: rest =>
      match readDict props with
      | Threw f => Threw f
      | Done p =>
          match readNested rest with
          | Threw f => Threw f
          | Done m => Done (<[intf := p]> m)
          end
      end
  end.

End Reading.

(** ** struct Properties *)

Module Properties.

Record Properties (Zone T : Type) := mkProperties {
  _path : string;
  _iface : string;
  _property : string;
  _handler : T -> Zone -> Outcome unit * Zone
}.
Arguments mkProperties {Zone T} _ _ _ _.
Arguments _path {Zone T} p.
Arguments _iface {Zone T} p.
Arguments _property {Zone T} p.
Arguments _handler {Zone T} p.

Section Body.
Context {Zone T : Type} {api : PropertyAPI Zone T}.

(** [operator()(bus, msg, zone)]; [msg] is [None] for a null message. *)
Definition signal (self : Properties Zone T)
    (msg : option PropertiesChangedMsg) : M Zone T unit :=
  match msg with
  | Some m =>
      if bool_decide (pcInterface m ≠ _iface self) then ret tt
      else
        properties <- liftOutcome (readDict (pcChanged m)) ;;
        match properties !! _property self with
        | None =>
            observe (LogErr "Unable to find property on interface"
                            (_property self) (_iface self) (_path self))
        | Some v => invoke (_handler self) v
        end
  | None =>
      tryCatch caughtAsBusError
        (val <- onZone
                  (GetPropertyByName (_path self) (_iface self)
                                     (_property self))
                  (getPropertyByName (_path self) (_iface self)
                                     (_property self)) ;;
         invoke (_handler self) val)
        (ret tt)
  end.

(** The lambda of [operator()(zone, group)], applied to one member. *)
Definition forMember (self : Properties Zone T) (member : Member)
    : M Zone T unit :=
  let path := pathPos member in
  let intf := intfPos member in
  let prop := propPos member in
  tryCatch caughtAsBusError
    (val <- onZone (GetPropertyByName path intf prop)
                   (getPropertyByName path intf prop) ;;
     invoke (_handler self) val)
    (ret tt).

(** [operator()(zone, group)]. *)
Definition init (self : Properties Zone T) (group : Group) : M Zone T unit :=
  for_each group (forMember self).

End Body.
End Properties.

(** [propertiesChanged<T>(path, iface, property, handler)]. *)
Definition propertiesChanged {Zone T} (path iface property : string)
    (handler : T -> Zone -> Outcome unit * Zone)
    : Properties.Properties Zone T :=
  Properties.mkProperties path iface property handler.

(** [getProperty<T>(handler)], through [explicit Properties(U&& handler)]. *)
Definition getProperty {Zone T} (handler : T -> Zone -> Outcome unit * Zone)
    : Properties.Properties Zone T :=
  Properties.mkProperties "" "" "" handler.

(** ** struct InterfaceAdded *)

Module InterfaceAdded.

Record InterfaceAdded (Zone T : Type) := mkInterfaceAdded {
  _path : string;
  _iface : string;
  _property : string;
  _handler : T -> Zone -> Outcome unit * Zone
}.
Arguments mkInterfaceAdded {Zone T} _ _ _ _.
Arguments _path {Zone T} i.
Arguments _iface {Zone T} i.
Arguments _property {Zone T} i.
Arguments _handler {Zone T} i.

Section Body.
Context {Zone T : Type} {api : PropertyAPI Zone T}.

(** [operator()(bus, msg, zone)]. *)
Definition signal (self : InterfaceAdded Zone T)
    (msg : option InterfacesAddedMsg) : M Zone T unit :=
  match msg with
  | Some m =>
      if bool_decide (iaPath m ≠ _path self) then ret tt
      else
        intfProp <- liftOutcome (readNested (iaInterfaces m)) ;;
        match intfProp !! _iface self with
        | None => ret tt
        | Some props =>
            match props !! _property self with
            | None => ret tt
            | Some v => invoke (_handler self) v
            end
        end
  | None => ret tt
  end.

End Body.
End InterfaceAdded.

(** [interfacesAdded<T>(path, iface, property, handler)]. *)
Definition interfacesAdded {Zone T} (path iface property : string)
    (handler : T -> Zone -> Outcome unit * Zone)
    : InterfaceAdded.InterfaceAdded Zone T :=
  InterfaceAdded.mkInterfaceAdded path iface property handler.

(** ** struct InterfaceRemoved *)

Module InterfaceRemoved.

Record InterfaceRemoved (Zone : Type) := mkInterfaceRemoved {
  _path : string;
  _iface : string;
  _handler : unit -> Zone -> Outcome unit * Zone
}.
Arguments mkInterfaceRemoved {Zone} _ _ _.
Arguments _path {Zone} i.
Arguments _iface {Zone} i.
Arguments _handler {Zone} i.

(** [operator()(bus, msg, zone)]; [std::find] over the removed names.  The
    handler receives the zone alone. *)
Definition signal {Zone} (self : InterfaceRemoved Zone)
    (msg : option InterfacesRemovedMsg) : M Zone unit unit :=
  match msg with
  | Some m =>
      if bool_decide (irPath m ≠ _path self) then ret tt
      else if bool_decide (_iface self ∈ irInterfaces m)
      then invoke (_handler self) tt
      else ret tt
  | None => ret tt
  end.

End InterfaceRemoved.


(** ** struct NameOwner *)

Module NameOwner.

Record NameOwner (Zone : Type) := mkNameOwner {
  _handler : string * bool -> Zone -> Outcome unit * Zone
}.
Arguments mkNameOwner {Zone} _.
Arguments _handler {Zone} n.

Section Body.
Context {Zone : Type} {bus : BusAPI Zone}.

(** [operator()(bus, msg, zone)]. *)
Definition signal (self : NameOwner Zone)
    (msg : option NameOwnerChangedMsg) : M Zone (string * bool) unit :=
  match msg with
  | Some m =>
      let name := nocName m in
      let hasOwner := negb (bool_decide (nocNewOwner m = "")) in
      invoke (_handler self) (name, hasOwner)
  | None => ret tt
  end.

(** The lambda of [operator()(zone, group)] for one member.  [name] and
    [hasOwner] are the locals of the enclosing function, captured by
    reference: they come in as [st] and go out as the result. *)
Definition forMember (self : NameOwner Zone) (st : string * bool)
    (m : Member)
    : M Zone (string * bool) (string * bool) :=
  let path := pathPos m in
  let intf := intfPos m in
  tryCatch caughtAsMethodError
    (servName <- onZone (GetService path intf) (getService path intf) ;;
     if bool_decide (fst st ≠ servName) then
       hasOwner <- onZone (NameHasOwner servName) (callNameHasOwner servName) ;;
       invoke (_handler self) (servName, hasOwner) ;;;
       ret (servName, hasOwner)
     else ret st)
    (ret ("", false)).

(** [std::for_each] with that lambda: the locals pass from one member to
    the next. *)
Fixpoint forMembers (self : NameOwner Zone) (st : string * bool)
    (group : Group) : M Zone (string * bool) (string * bool) :=
  match group with
  | [] => ret st
  | m :: rest => st' <- forMember self st m ;; forMembers self st' rest
  end.

(** [operator()(zone, group)]. *)
Definition init (self : NameOwner Zone) (group : Group)
    : M Zone (string * bool) unit :=
  forMembers self ("", false) group ;;; ret tt.

End Body.
End NameOwner.

(** [nameOwnerChanged(handler)] and [nameHasOwner(handler)]. *)
Definition nameOwnerChanged {Zone}
    (handler : string * bool -> Zone -> Outcome unit * Zone)
    : NameOwner.NameOwner Zone :=
  NameOwner.mkNameOwner handler.

Definition nameHasOwner {Zone}
    (handler : string * bool -> Zone -> Outcome unit * Zone)
    : NameOwner.NameOwner Zone :=
  NameOwner.mkNameOwner handler.

(** ** Vocabulary of the statements *)

Definition handlerCalls {Arg} (tr : list (Obs Arg)) : list Arg :=
  omap (fun o => match o with Invoked a => Some a | _ => None end) tr.

Definition isLogErr {Arg} (o : Obs Arg) : bool :=
  match o with LogErr _ _ _ _ => true | _ => false end.

Definition errorLogs {Arg} (tr : list (Obs Arg)) : list (Obs Arg) :=
  List.filter isLogErr tr.

(** A call that returns, or throws what the Properties functor catches. *)
Definition onlyBusErrors {A} (r : Outcome A) : Prop :=
  match r with
  | Done _ => True
  | Threw f => caughtAsBusError f = true
  end.

(** A call that returns, or throws what the NameOwner functor catches. *)
Definition onlyMethodErrors {A} (r : Outcome A) : Prop :=
  match r with
  | Done _ => True
  | Threw f => caughtAsMethodError f = true
  end.

(** First entry of a wire dictionary under a name. *)
Fixpoint wireLookup (name : string) (entries : list (string * WireValue))
    : option WireValue :=
  match entries with
  | [] => None
  | (n, wv) :: rest =>
      if bool_decide (n = name) then Some wv else wireLookup name rest
  end.

(** ** The two group passes in the words of the specification

    These two functions are not translated from the code: they say what the
    specification asks of a pass over a group, one member after the other,
    directly on the zone, its reads and the handler.  [Properties.init] and
    [NameOwner.init] are compared with them below. *)

Section SpecWords.
Context {Zone : Type}.

(** The PropertyChanged binding on group enumeration: for each member, a
    synchronous read; when the value is not available the member is skipped
    and the enumeration goes on; on success the handler is invoked with the
    value.  The result is the zone after the last member and what was done,
    in order. *)
Fixpoint enumerateSpec {T} {api : PropertyAPI Zone T}
    (handler : T -> Zone -> Outcome unit * Zone) (group : Group) (z : Zone)
    : Zone * list (Obs T) :=
  match group with
  | [] => (z, [])
  | m :: rest =>
      let read := getPropertyByName (pathPos m) (intfPos m) (propPos m) z in
      match fst read with
      | Threw f =>
          let after := enumerateSpec handler rest (snd read) in
          (fst after,
           GetPropertyByName (pathPos m) (intfPos m) (propPos m) (Threw f)
           :: snd after)
      | Done v =>
          let after :=
            enumerateSpec handler rest (snd (handler v (snd read))) in
          (fst after,
           GetPropertyByName (pathPos m) (intfPos m) (propPos m) (Done v)
           :: Invoked v :: snd after)
      end
  end.

(** The NameOwner binding in group mode: for each member, its service name
    is resolved; when it differs from the name seen before in this pass,
    the ownership of the name is queried and the handler is invoked with
    the result; a failed resolution or query is swallowed, invokes no
    handler and resets the name seen to unknown (empty name, no owner).
    [seen] is the name and owner state carried from the member before. *)
Fixpoint dedupSpec {bus : BusAPI Zone}
    (handler : string * bool -> Zone -> Outcome unit * Zone)
    (seen : string * bool) (group : Group) (z : Zone)
    : Zone * list (Obs (string * bool)) :=
  match group with
  | [] => (z, [])
  | m :: rest =>
      let resolved := getService (pathPos m) (intfPos m) z in
      match fst resolved with
      | Threw f =>
          let after := dedupSpec handler ("", false) rest (snd resolved) in
          (fst after,
           GetService (pathPos m) (intfPos m) (Threw f) :: snd after)
      | Done servName =>
          if bool_decide (fst seen ≠ servName) then
            let query := callNameHasOwner servName (snd resolved) in
            match fst query with
            | Threw f =>
                let after := dedupSpec handler ("", false) rest (snd query) in
                (fst after,
                 GetService (pathPos m) (intfPos m) (Done servName)
                 :: NameHasOwner servName (Threw f) :: snd after)
            | Done hasOwner =>
                let after :=
                  dedupSpec handler (servName, hasOwner) rest
                    (snd (handler (servName, hasOwner) (snd query))) in
                (fst after,
                 GetService (pathPos m) (intfPos m) (Done servName)
                 :: NameHasOwner servName (Done hasOwner)
                 :: Invoked (servName, hasOwner) :: snd after)
            end
          else
            let after := dedupSpec handler seen rest (snd resolved) in
            (fst after,
             GetService (pathPos m) (intfPos m) (Done servName) :: snd after)
      end
  end.

End SpecWords.

(** ** A small zone for the examples

    The zone serves a few cached boolean properties, knows the service of a
    few paths and which names are owned, and keeps what its handler was
    given. *)
Record DemoZone := mkDemoZone {
  cached : list (Member * bool);
  serviceOf : list (string * string);
  owned : list string;
  received : list bool
}.

Fixpoint assoc {K V} `{EqDecision K} (k : K) (l : list (K * V)) : option V :=
  match l with
  | [] => None
  | (k', v) :: rest => if decide (k' = k) then Some v else assoc k rest
  end.

Definition demoGetProperty (path iface property : string) (z : DemoZone)
    : Outcome bool * DemoZone :=
  match assoc (path, iface, property) (cached z) with
  | Some v => (Done v, z)
  | None => (Threw DBusError, z)
  end.

Definition demoGetService (path iface : string) (z : DemoZone)
    : Outcome string * DemoZone :=
  match assoc path (serviceOf z) with
  | Some n => (Done n, z)
  | None => (Threw DBusMethodError, z)
  end.

Definition demoNameHasOwner (name : string) (z : DemoZone)
    : Outcome bool * DemoZone :=
  (Done (bool_decide (name ∈ owned z)), z).

(** A bus library that skips a variant of another type and leaves the
    value-initialised [T]. *)
Definition skipMismatch : PropertyAPI DemoZone bool :=
  {| getPropertyByName := demoGetProperty;
     readVariant := fun wv => match wv with
                              | WBool b => Done b
                              | _ => Done false
                              end |}.

(** A bus library that throws on a variant of another type. *)
Definition throwMismatch : PropertyAPI DemoZone bool :=
  {| getPropertyByName := demoGetProperty;
     readVariant := fun wv => match wv with
                              | WBool b => Done b
                              | _ => Threw SdBusError
                              end |}.

Definition demoBus : BusAPI DemoZone :=
  {| getService := demoGetService;
     callNameHasOwner := demoNameHasOwner |}.

Definition storeValue (v : bool) (z : DemoZone) : Outcome unit * DemoZone :=
  (Done tt, mkDemoZone (cached z) (serviceOf z) (owned z) (received z ++ [v])).

Definition ignoreOwner (a : string * bool) (z : DemoZone)
    : Outcome unit * DemoZone :=
  (Done tt, z).

(** A handler of owner changes that keeps the owner states it was given. *)
Definition storeOwner (a : string * bool) (z : DemoZone)
    : Outcome unit * DemoZone :=
  storeValue (snd a) z.

Definition critical : string := "xyz.openbmc_project.Sensor.Threshold.Critical".
Definition ambient : string := "/xyz/openbmc_project/sensors/temperature/ambient".
Definition inlet : string := "/xyz/openbmc_project/sensors/temperature/inlet".
Definition outlet : string := "/xyz/openbmc_project/sensors/temperature/outlet".

Definition demoZone : DemoZone :=
  mkDemoZone
    [((ambient, critical, "CriticalAlarmHigh"), true);
     ((outlet, critical, "CriticalAlarmHigh"), false)]
    [(ambient, "xyz.openbmc_project.Hwmon-1");
     (inlet, "xyz.openbmc_project.Hwmon-1");
     (outlet, "xyz.openbmc_project.Hwmon-2")]
    ["xyz.openbmc_project.Hwmon-1"]
    [].

Definition demoWorld {Arg} : World DemoZone Arg := mkWorld demoZone [].

Definition demoGroup : Group :=
  [(ambient, critical, "CriticalAlarmHigh");
   (inlet, critical, "CriticalAlarmHigh");
   (outlet, critical, "CriticalAlarmHigh")].

Definition ambientHigh : Properties.Properties DemoZone bool :=
  propertiesChanged ambient critical "CriticalAlarmHigh" storeValue.


Definition highTripped : PropertiesChangedMsg :=
  mkPropertiesChanged critical
    [("CriticalAlarmLow", WBool false); ("CriticalAlarmHigh", WBool true)] [].

Definition highAsNumber : PropertiesChangedMsg :=
  mkPropertiesChanged critical [("CriticalAlarmHigh", WInt64 1)] [].

Definition ambientAnnounced : InterfacesAddedMsg :=
  mkInterfacesAdded ambient
    [("xyz.openbmc_project.Sensor.Value", [("Functional", WBool false)]);
     (critical, [("CriticalAlarmHigh", WBool true)])].

End Functor.

(* ===================================================================== *)
(** * More vocabulary for the functors *)
(* ===================================================================== *)

Module FunctorMore.
Import Functor.

(** The names at which a walk over resolved service names changes name,
    starting from [prev]: what a pass that only compares with the name
    before it would report. *)
Fixpoint changes (prev : string) (names : list string) : list string :=
  match names with
  | [] => []
  | n :: rest =>
      if bool_decide (prev ≠ n) then n :: changes n rest
      else changes prev rest
  end.

(** The service each member of a group resolves to, for a resolver that
    depends on path and interface alone. *)
Definition servicesOf (svc : string -> string -> string) (group : Group)
    : list string :=
  (fun m => svc (pathPos m) (intfPos m)) <$> group.

(** A bus whose answers depend on the question alone and that never fails. *)
Definition steadyBus {Zone} (svc : string -> string -> string)
    (own : string -> bool) : BusAPI Zone :=
  {| getService := fun p i z => (Done (svc p i), z);
     callNameHasOwner := fun n z => (Done (own n), z) |}.

(** A handler that throws the first time it is called. *)
Definition refuse (f : Fault) (v : bool) (z : DemoZone)
    : Outcome unit * DemoZone :=
  (Threw f, z).

Definition demoSvc (path iface : string) : string :=
  if bool_decide (path = outlet) then "xyz.openbmc_project.Hwmon-2"
  else "xyz.openbmc_project.Hwmon-1".

Definition demoOwn (name : string) : bool :=
  bool_decide (name = "xyz.openbmc_project.Hwmon-1").

(** A zone whose property reads fail with an exception the functors do not
    catch for anything it has not cached. *)
Definition brittleGetProperty (path iface property : string) (z : DemoZone)
    : Outcome bool * DemoZone :=
  match assoc (path, iface, property) (cached z) with
  | Some v => (Done v, z)
  | None => (Threw (OtherFault "std::out_of_range"), z)
  end.

Definition brittle : PropertyAPI DemoZone bool :=
  {| getPropertyByName := brittleGetProperty;
     readVariant := fun wv => match wv with
                              | WBool b => Done b
                              | _ => Done false
                              end |}.

(** A bus on which resolving the inlet sensor fails inside the library. *)
Definition flakyBus : BusAPI DemoZone :=
  {| getService := fun p i z =>
       if bool_decide (p = inlet) then (Threw SdBusError, z)
       else demoGetService p i z;
     callNameHasOwner := demoNameHasOwner |}.

Definition ambientMember : Member := (ambient, critical, "CriticalAlarmHigh").
Definition inletMember : Member := (inlet, critical, "CriticalAlarmHigh").
Definition outletMember : Member := (outlet, critical, "CriticalAlarmHigh").


End FunctorMore.

(* ===================================================================== *)
(** * The fanctl command-line tool *)
(* ===================================================================== *)

Module FanCtl.

(** ** Exceptions and results *)

(** What can be thrown: something derived from [std::exception], with its
    [what()] text, or an object of another type. *)
Inductive Thrown :=
| StdException (what : string)
| OtherThrown.

Inductive Res (A : Type) :=
| Ok (a : A)
| Raise (t : Thrown).
Arguments Ok {A} a.
Arguments Raise {A} t.

Definition andThen {A B} (r : Res A) (k : A -> Res B) : Res B :=
  match r with
  | Ok a => k a
  | Raise t => Raise t
  end.

Notation "x <~ r ;; k" := (andThen r (fun x => k))
  (at level 100, r at next level, right associativity).

(** A range-based for loop that updates an accumulator and may throw. *)
Fixpoint foldM {A B} (f : A -> B -> Res A) (acc : A) (l : list B) : Res A :=
  match l with
  | [] => Ok acc
  | x :: rest => acc' <~ f acc x ;; foldM f acc' rest
  end.

(** A range-based for loop that pushes one result per element. *)
Fixpoint mapM {A B} (f : A -> Res B) (l : list A) : Res (list B) :=
  match l with
  | [] => Ok []
  | x :: rest => y <~ f x ;; ys <~ mapM f rest ;; Ok (y :: ys)
  end.

(** ** std::string *)

(** [s.rfind(c)] for a pattern of one character; [None] is [npos]. *)
Fixpoint rfind (c : ascii) (s : string) : option nat :=
  match s with
  | EmptyString => None
  | String x rest =>
      match rfind c rest with
      | Some i => Some (S i)
      | None => if decide (x = c) then Some 0 else None
      end
  end.

Fixpoint skip (n : nat) (s : string) : string :=
  match n, s with
  | 0, _ => s
  | S n', EmptyString => EmptyString
  | S n', String _ rest => skip n' rest
  end.

Fixpoint first (n : nat) (s : string) : string :=
  match n, s with
  | 0, _ => EmptyString
  | S n', EmptyString => EmptyString
  | S n', String x rest => String x (first n' rest)
  end.

Definition outOfRange : Thrown := StdException "basic_string::substr".

(** [s.substr(pos, len)]; [len = None] is [npos].  A position past the end
    throws [std::out_of_range]; a length past the end is cut. *)
Definition substr (pos : nat) (len : option nat) (s : string) : Res string :=
  if decide (pos <= String.length s) then
    Ok (match len with
        | Some n => first n (skip pos s)
        | None => skip pos s
        end)
  else Raise outOfRange.

(** [hay.find(needle)]; [None] is [npos]. *)
Fixpoint find (needle hay : string) : option nat :=
  if String.prefix needle hay then Some 0
  else match hay with
       | EmptyString => None
       | String _ rest => S <$> find needle rest
       end.

(** ** justFanName *)

Definition justFanName (path : string) : Res string :=
  match rfind "/"%char path with
  | Some itr =>
      if decide (itr < String.length path) then substr (1 + itr) None path
      else Ok ""
  | None => Ok ""
  end.

(** ** What the tool asks of the bus

    [getSubTreePathsRaw] is [SDBusPlus::getSubTreePathsRaw] (the mapper's
    answer for a root path, an interface and a depth), [listUnitsByNames] is
    [SDBusPlus::callMethodAndRead] of systemd's ListUnitsByNames, and
    [getPropertyString] is [SDBusPlus::getProperty<std::string>]. *)
Record UnitTuple := mkUnitTuple {
  unitName : string;
  unitDescription : string;
  unitLoadState : string;
  unitActiveState : string;
  unitSubState : string;
  unitFollowing : string;
  unitPath : string;
  unitJobId : N;
  unitJobType : string;
  unitJobPath : string
}.

Class SDBusPlus := {
  getSubTreePathsRaw : string -> string -> nat -> Res (list string);
  listUnitsByNames : list string -> Res (list UnitTuple);
  getPropertyString : string -> string -> string -> Res string
}.

(** [m[key]] on a [std::map] of strings that is only read. *)
Definition at_ (m : gmap string string) (key : string) : string :=
  default "" (m !! key).

(** [dest[fan].push_back(path)]. *)
Definition pushBack (dest : gmap string (list string)) (fan path : string)
    : gmap string (list string) :=
  <[fan := default [] (dest !! fan) ++ [path]]> dest.

Section Bus.
Context {bus : SDBusPlus}.

(** ** getPathsFromIface *)

(** The body of the inner loop, for one path and one fan. *)
Definition forFan (shortPath : bool) (path : string)
    (dest : gmap string (list string)) (fan : string)
    : Res (gmap string (list string)) :=
  if shortPath then
    name <~ justFanName path ;;
    if bool_decide (fan = name) then Ok (pushBack dest fan path) else Ok dest
  else
    if bool_decide (find (fan +:+ "_") path <> None)
    then Ok (pushBack dest fan path)
    else Ok dest.

Definition getPathsFromIface (path iface : string) (fans : list string)
    (shortPath : bool) : Res (gmap string (list string)) :=
  subtree <~ getSubTreePathsRaw path iface 0 ;;
  foldM (fun dest p => foldM (forFan shortPath p) dest fans) ∅ subtree.

(** ** loadDBusData *)

Definition interfaces : gmap string string :=
  list_to_map
    [("FanSpeed", "xyz.openbmc_project.Control.FanSpeed");
     ("FanPwm", "xyz.openbmc_project.Control.FanPwm");
     ("SensorValue", "xyz.openbmc_project.Sensor.Value");
     ("Item", "xyz.openbmc_project.Inventory.Item");
     ("OpStatus", "xyz.openbmc_project.State.Decorator.OperationalStatus")].

Definition paths : gmap string string :=
  list_to_map
    [("motherboard",
      "/xyz/openbmc_project/inventory/system/chassis/motherboard");
     ("tach", "/xyz/openbmc_project/sensors/fan_tach")].

(** The fan a control path belongs to:
    [fan = justFanName(path); fan = fan.substr(0, fan.rfind("_"))]. *)
Definition fanOf (path : string) : Res string :=
  fan <~ justFanName path ;;
  substr 0 (rfind "_"%char fan) fan.

Definition loadDBusData
    : Res (list string * gmap string (gmap string (list string)) *
           gmap string string * string) :=
  rpmPaths <~ getSubTreePathsRaw (at_ paths "tach")
                                 (at_ interfaces "FanSpeed") 0 ;;
  fanNames <~ mapM fanOf rpmPaths ;;
  found <~ (if decide (0 = length fanNames) then
              pwmPaths <~ getSubTreePathsRaw (at_ paths "tach")
                                             (at_ interfaces "FanPwm") 0 ;;
              more <~ mapM fanOf pwmPaths ;;
              Ok (fanNames ++ more, "PWM")
            else Ok (fanNames, "RPM")) ;;
  tach <~ getPathsFromIface (at_ paths "tach")
                            (at_ interfaces "SensorValue") (fst found)
                            false ;;
  inventory <~ getPathsFromIface (at_ paths "motherboard")
                                 (at_ interfaces "Item") (fst found) true ;;
  opstatus <~ getPathsFromIface (at_ paths "motherboard")
                                (at_ interfaces "OpStatus") (fst found)
                                true ;;
  Ok (fst found,
      <["opstatus" := opstatus]>
        (<["inventory" := inventory]> (<["tach" := tach]> ∅)),
      interfaces, snd found).

(** ** getStates *)

Inductive Output :=
| Cout (line : string)
| Cerr (line : string).

Definition fanControlService : string := "phosphor-fan-control@0.service".

(** The try block: the three systemd states of the fan-control unit, left
    empty when the unit is not listed or the call throws an exception. *)
Definition unitStates (console : list Output)
    : Res (string * string * string) * list Output :=
  match listUnitsByNames [fanControlService] with
  | Ok (u :: _) =>
      (Ok (unitLoadState u, unitActiveState u, unitSubState u), console)
  | Ok [] =>
      (Ok ("", "", ""),
       console ++ [Cout ("No units found for systemd service: " +:+
                         fanControlService)])
  | Raise (StdException what) =>
      (Ok ("", "", ""),
       console ++ [Cerr ("Failure retrieving phosphor-fan-control states: "
                         +:+ what)])
  | Raise OtherThrown => (Raise OtherThrown, console)
  end.

Definition getStates (console : list Output)
    : Res (list string) * list Output :=
  match unitStates console with
  | (Raise t, console') => (Raise t, console')
  | (Ok (loaded, active, running), console') =>
      (bmc <~ getPropertyString "/xyz/openbmc_project/state/bmc0"
                "xyz.openbmc_project.State.BMC" "CurrentBMCState" ;;
       power <~ getPropertyString "/xyz/openbmc_project/state/chassis0"
                  "xyz.openbmc_project.State.Chassis" "CurrentPowerState" ;;
       host <~ getPropertyString "/xyz/openbmc_project/state/host0"
                 "xyz.openbmc_project.State.Host" "CurrentHostState" ;;
       Ok [loaded; active; running; bmc; power; host],
       console')
  end.

(** ** ifaceTypeFromMethod *)

Definition ifaceTypeFromMethod (method : string) : string :=
  if bool_decide (method = "RPM") then "FanSpeed" else "FanPwm".

End Bus.

(** ** Vocabulary of the statements *)

(** The part of a path after its last slash, empty when it has none. *)
Definition lastToken (path : string) : string :=
  match rfind "/"%char path with
  | Some i => skip (S i) path
  | None => ""
  end.

(** A name up to its last underscore, the whole name when it has none. *)
Definition stem (name : string) : string :=
  match rfind "_" name with
  | Some i => first i name
  | None => name
  end.

(** When [getPathsFromIface] files a path under a fan. *)
Definition files (shortPath : bool) (fan path : string) : bool :=
  if shortPath then bool_decide (fan = lastToken path)
  else bool_decide (find (fan +:+ "_") path <> None).

Fixpoint copies (fan : string) (fans : list string) : nat :=
  match fans with
  | [] => 0
  | f :: rest => (if bool_decide (f = fan) then 1 else 0) + copies fan rest
  end.

(** What a fan is expected to have in the map: every path of the subtree
    that is filed under it, in the order of the subtree, once for each time
    the fan is listed. *)
Definition filed (shortPath : bool) (fans subtree : list string)
    (fan : string) : list string :=
  flat_map (fun p => if files shortPath fan p
                     then replicate (copies fan fans) p else [])
           subtree.

Definition entries (dest : gmap string (list string)) (fan : string)
    : list string :=
  default [] (dest !! fan).

(** No key of the map holds an empty vector. *)
Definition tidy (dest : gmap string (list string)) : Prop :=
  forall fan, dest !! fan <> Some [].

(** A bus for the examples: two fans with two rotors each, controlled by
    target speed. *)
Definition tachRoot : string := "/xyz/openbmc_project/sensors/fan_tach".
Definition boardRoot : string :=
  "/xyz/openbmc_project/inventory/system/chassis/motherboard".

Definition demoBus : SDBusPlus :=
  {| getSubTreePathsRaw := fun path iface depth =>
       if bool_decide (iface = "xyz.openbmc_project.Control.FanSpeed") then
         Ok [tachRoot +:+ "/fan0_0"; tachRoot +:+ "/fan1_0"]
       else if bool_decide (iface = "xyz.openbmc_project.Sensor.Value") then
         Ok [tachRoot +:+ "/fan0_0"; tachRoot +:+ "/fan0_1";
             tachRoot +:+ "/fan1_0"; tachRoot +:+ "/fan1_1"]
       else if bool_decide (path = boardRoot) then
         Ok [boardRoot +:+ "/fan0"; boardRoot +:+ "/fan1"]
       else Ok [];
     listUnitsByNames := fun _ => Raise (StdException "timed out");
     getPropertyString := fun path iface prop =>
       if bool_decide (prop = "CurrentHostState")
       then Raise (StdException "no such property")
       else Ok "Ready" |}.

(** A bus where systemd does not answer but the three states can be read. *)
Definition quietSystemd : SDBusPlus :=
  {| getSubTreePathsRaw := fun _ _ _ => Ok [];
     listUnitsByNames := fun _ => Raise (StdException "timed out");
     getPropertyString := fun path iface prop => Ok prop |}.

(** The value last stored under a key in a list of writes. *)
Fixpoint assocLast (key : string) (l : list (string * N)) : option N :=
  match l with
  | [] => None
  | (k, v) :: rest =>
      match assocLast key rest with
      | Some v' => Some v'
      | None => if bool_decide (k = key) then Some v else None
      end
  end.

(** What the tool loads from the example bus, and its tach map. *)
Definition demoLoaded
    : list string * gmap string (gmap string (list string)) *
      gmap string string * string :=
  match loadDBusData (bus := demoBus) with
  | Ok x => x
  | Raise _ => ([], ∅, ∅, "")
  end.

Definition demoTach : gmap string (list string) :=
  match getPathsFromIface (bus := demoBus) tachRoot
          "xyz.openbmc_project.Sensor.Value" ["fan0"; "fan1"] false with
  | Ok dest => dest
  | Raise _ => ∅
  end.

End FanCtl.

(* ===================================================================== *)
(** * The fan of a zone *)
(* ===================================================================== *)

Module Fan.

Definition PROPERTY_INTERFACE : string := "org.freedesktop.DBus.Properties".
Definition FAN_SENSOR_PATH : string := "/xyz/openbmc_project/sensors/fan_tach/".
Definition FAN_TARGET_PROPERTY : string := "Target".

(** The three components of a [FanDefinition] that the constructor takes
    with [fanNamePos], [sensorListPos] and [targetInterfacePos]. *)
Record FanDefinition := mkFanDefinition {
  fanName : string;
  sensorList : list string;
  targetInterface : string
}.

(** The members of [Fan].  [_targetSpeed] is [None] as long as nothing in
    fan.cpp has assigned it. *)
Record Fan := mkFan {
  _name : string;
  _sensors : list string;
  _interface : string;
  _targetSpeed : option N
}.

(** What the fan does on the bus, each call with what came of it. *)
Inductive Obs :=
| GetTarget (path iface property : string) (r : Functor.Outcome N)
| GetService (sensor iface : string) (r : Functor.Outcome string)
| CallSet (service sensor iface property : string) (value : N)
          (r : Functor.Outcome bool)
| LogErr (text sensor : string).

(** What the fan uses of the bus: [getProperty] is
    [util::SDBusPlus::getProperty<uint64_t>], [utilGetService] is
    [util::getService], and [callSet] is [_bus.call] of the Set method of
    [PROPERTY_INTERFACE] with the interface, the property and the value
    appended; its boolean is [response.is_method_error()]. *)
Class FanBus (Bus : Type) := {
  getProperty : string -> string -> string -> Bus -> Functor.Outcome N;
  utilGetService : string -> string -> Bus -> Functor.Outcome string;
  callSet : string -> string -> string -> string -> string -> string -> N ->
            Bus -> Functor.Outcome bool * Bus
}.

Record World (Bus : Type) := mkWorld {
  theBus : Bus;
  trace : list Obs
}.
Arguments mkWorld {Bus} theBus trace.
Arguments theBus {Bus} w.
Arguments trace {Bus} w.

(** What [elog<InternalFailure>()] throws. *)
Definition InternalFailure : Functor.Fault :=
  Functor.OtherFault "xyz.openbmc_project.Common.Error.InternalFailure".

Section Body.
Context {Bus : Type} {api : FanBus Bus}.

(** The loop of the constructor: [path] keeps the last path built. *)
Definition addSensor (acc : string * list string) (s : string)
    : string * list string :=
  let path := FAN_SENSOR_PATH +:+ s in
  (path, snd acc ++ [path]).

(** [Fan::Fan(bus, def)]; a throw leaves no fan. *)
Definition construct (def : FanDefinition) (w : World Bus)
    : Functor.Outcome Fan * World Bus :=
  let '(path, sensors) := foldl addSensor ("", []) (sensorList def) in
  if bool_decide (path <> "") then
    let r := getProperty path (targetInterface def) FAN_TARGET_PROPERTY
                         (theBus w) in
    let w' := mkWorld (theBus w)
                (trace w ++ [GetTarget path (targetInterface def)
                                       FAN_TARGET_PROPERTY r]) in
    match r with
    | Functor.Done v =>
        (Functor.Done (mkFan (fanName def) sensors (targetInterface def)
                             (Some v)), w')
    | Functor.Threw f => (Functor.Threw f, w')
    end
  else
    (Functor.Done (mkFan (fanName def) sensors (targetInterface def) None),
     w).

(** [Fan::getService(sensor)]. *)
Definition getService (self : Fan) (sensor : string) (w : World Bus)
    : Functor.Outcome string * World Bus :=
  let r := utilGetService sensor (_interface self) (theBus w) in
  (r, mkWorld (theBus w) (trace w ++ [GetService sensor (_interface self) r])).

(** The loop of [Fan::setSpeed] over the sensors that are left. *)
Fixpoint setSensors (self : Fan) (speed : N) (sensors : list string)
    (w : World Bus) : Functor.Outcome unit * World Bus :=
  match sensors with
  | [] => (Functor.Done tt, w)
  | sensor :: rest =>
      match getService self sensor w with
      | (Functor.Threw f, w1) => (Functor.Threw f, w1)
      | (Functor.Done service, w1) =>
          let '(r, b) := callSet service sensor PROPERTY_INTERFACE "Set"
                                 (_interface self) FAN_TARGET_PROPERTY speed
                                 (theBus w1) in
          let w2 := mkWorld b
                      (trace w1 ++ [CallSet service sensor (_interface self)
                                            FAN_TARGET_PROPERTY speed r]) in
          match r with
          | Functor.Threw f => (Functor.Threw f, w2)
          | Functor.Done true =>
              (Functor.Threw InternalFailure,
               mkWorld b (trace w2 ++
                          [LogErr "Failed call to set fan speed " sensor]))
          | Functor.Done false => setSensors self speed rest w2
          end
      end
  end.

(** [Fan::setSpeed(speed)]: the fan comes back with the outcome, changed
    only when the loop ran to its end. *)
Definition setSpeed (self : Fan) (speed : N) (w : World Bus)
    : Functor.Outcome unit * Fan * World Bus :=
  match setSensors self speed (_sensors self) w with
  | (Functor.Done _, w') =>
      (Functor.Done tt,
       mkFan (_name self) (_sensors self) (_interface self) (Some speed),
       w')
  | (Functor.Threw f, w') => (Functor.Threw f, self, w')
  end.

End Body.

(** ** Vocabulary of the statements *)

(** The sensors written to, with the value written, in order. *)
Definition written (tr : list Obs) : list (string * N) :=
  omap (fun o => match o with
                 | CallSet _ sensor _ _ value _ => Some (sensor, value)
                 | _ => None
                 end) tr.

(** A pass of [setSpeed] in which every lookup answers and every write is
    accepted: [svc] is the service the lookup of a sensor returns on a bus,
    [accept] the bus a Set call leaves.  [writeOne] is the bus after the
    write to one sensor, [writeObs] what the pass over the sensors does,
    from the bus it starts on. *)
Section Writes.
Context {Bus : Type}.
Variable svc : string -> string -> Bus -> string.
Variable accept :
  string -> string -> string -> string -> string -> string -> N -> Bus -> Bus.

Definition writeOne (self : Fan) (speed : N) (b : Bus) (sensor : string)
    : Bus :=
  accept (svc sensor (_interface self) b) sensor PROPERTY_INTERFACE "Set"
         (_interface self) FAN_TARGET_PROPERTY speed b.

Fixpoint writeObs (self : Fan) (speed : N) (b : Bus) (sensors : list string)
    : list Obs :=
  match sensors with
  | [] => []
  | sensor :: rest =>
      GetService sensor (_interface self)
                 (Functor.Done (svc sensor (_interface self) b))
      :: CallSet (svc sensor (_interface self) b) sensor (_interface self)
                 FAN_TARGET_PROPERTY speed (Functor.Done false)
      :: writeObs self speed (writeOne self speed b sensor) rest
  end.

End Writes.

(** A bus for the examples: it keeps the targets written, and rejects
    writes to the sensors listed as broken. *)
Record DemoBus := mkDemoBus {
  targets : list (string * N);
  broken : list string
}.

Definition demoApi : FanBus DemoBus :=
  {| getProperty := fun path iface prop b =>
       match FanCtl.find "rotor" path with
       | Some _ => Functor.Done 4200%N
       | None => Functor.Threw Functor.DBusError
       end;
     utilGetService := fun sensor iface b =>
       Functor.Done "xyz.openbmc_project.Hwmon-1";
     callSet := fun service sensor iface0 member iface prop value b =>
       if bool_decide (sensor ∈ broken b) then (Functor.Done true, b)
       else (Functor.Done false,
             mkDemoBus ((sensor, value) :: targets b) (broken b)) |}.

(** A bus that accepts every write and keeps what was written. *)
Definition steadyApi : FanBus (list (string * N)) :=
  {| getProperty := fun path iface prop b =>
       match FanCtl.assocLast path b with
       | Some v => Functor.Done v
       | None => Functor.Threw Functor.DBusError
       end;
     utilGetService := fun sensor iface b =>
       Functor.Done "xyz.openbmc_project.Hwmon-1";
     callSet := fun service sensor iface0 member iface prop value b =>
       (Functor.Done false, b ++ [(sensor, value)]) |}.

Definition demoFan : Fan :=
  mkFan "fan0"
    [FAN_SENSOR_PATH +:+ "rotor0"; FAN_SENSOR_PATH +:+ "rotor1";
     FAN_SENSOR_PATH +:+ "rotor2"]
    "xyz.openbmc_project.Control.FanSpeed" (Some 4200%N).

Definition demoWorld : World DemoBus :=
  mkWorld (mkDemoBus [] [FAN_SENSOR_PATH +:+ "rotor1"]) [].

Definition healthyWorld : World DemoBus := mkWorld (mkDemoBus [] []) [].

End Fan.

(* ===================================================================== *)
(** * Properties of the shutdown-alarm monitor *)
(* ===================================================================== *)

Module ShutdownAlarmSpec.
Import ShutdownAlarm.

(** ** Reading the state *)

Lemma timerOf_Some k s t :
  timerOf k s = Some t <-> alarms s !! k = Some (Some t).
Proof.
  unfold timerOf. destruct (alarms s !! k) as [[t'|]|]; split; congruence.
Qed.

Lemma hasTimer_true k s :
  hasTimer k s = true <-> exists t, alarms s !! k = Some (Some t).
Proof.
  unfold hasTimer. rewrite bool_decide_eq_true. unfold is_Some.
  split; intros [t Ht]; exists t; by apply timerOf_Some.
Qed.

Lemma hasTimer_false k s :
  hasTimer k s = false <-> timerOf k s = None.
Proof.
  unfold hasTimer. rewrite bool_decide_eq_false, <- eq_None_not_Some. done.
Qed.

Lemma hasTimer_alarms k s s' :
  alarms s' !! k = alarms s !! k -> hasTimer k s' = hasTimer k s.
Proof. intros H. unfold hasTimer, timerOf. by rewrite H. Qed.

(** ** Field by field: what [checkAlarm] returns *)

Lemma checkAlarm_alarms cfg value k s :
  alarms (checkAlarm cfg value k s) =
    if value && powerOn s && negb (hasTimer k s)
    then <[k := Some (newTimer cfg k)]> (alarms s)
    else if negb value && hasTimer k s
         then <[k := None]> (alarms s)
         else alarms s.
Proof.
  unfold checkAlarm.
  replace (hasTimer k (noteValue value k s)) with (hasTimer k s) by done.
  destruct value, (powerOn s) eqn:Hp, (hasTimer k s) eqn:Ht; simpl;
    rewrite ?Hp; done.
Qed.

Lemma checkAlarm_journal cfg value k s :
  journal (checkAlarm cfg value k s) =
    if value && powerOn s && negb (hasTimer k s)
    then journal s ++ [AlarmAsserted k]
    else if negb value && hasTimer k s
         then journal s ++ [AlarmCleared k]
         else journal s.
Proof.
  unfold checkAlarm.
  replace (hasTimer k (noteValue value k s)) with (hasTimer k s) by done.
  destruct value, (powerOn s) eqn:Hp, (hasTimer k s) eqn:Ht; simpl;
    rewrite ?Hp; done.
Qed.

Lemma checkAlarm_powerOn cfg value k s :
  powerOn (checkAlarm cfg value k s) = powerOn s.
Proof.
  unfold checkAlarm.
  replace (hasTimer k (noteValue value k s)) with (hasTimer k s) by done.
  destruct value, (powerOn s) eqn:Hp, (hasTimer k s) eqn:Ht; simpl;
    rewrite ?Hp; done.
Qed.

Lemma checkAlarm_shutdowns cfg value k s :
  shutdowns (checkAlarm cfg value k s) = shutdowns s.
Proof.
  unfold checkAlarm.
  replace (hasTimer k (noteValue value k s)) with (hasTimer k s) by done.
  destruct value, (powerOn s) eqn:Hp, (hasTimer k s) eqn:Ht; simpl;
    rewrite ?Hp; done.
Qed.

Lemma checkAlarm_lastValue cfg value k s :
  lastValue (checkAlarm cfg value k s) = <[k := value]> (lastValue s).
Proof.
  unfold checkAlarm.
  replace (hasTimer k (noteValue value k s)) with (hasTimer k s) by done.
  destruct value, (powerOn s) eqn:Hp, (hasTimer k s) eqn:Ht; simpl;
    rewrite ?Hp; done.
Qed.

Lemma checkAlarm_other cfg value k k' s :
  k <> k' -> alarms (checkAlarm cfg value k s) !! k' = alarms s !! k'.
Proof.
  intros Hne. rewrite checkAlarm_alarms.
  repeat case_match; by rewrite ?lookup_insert_ne.
Qed.

Lemma checkAlarm_hasTimer cfg value k s :
  hasTimer k (checkAlarm cfg value k s) =
    if value then powerOn s || hasTimer k s else false.
Proof.
  destruct (hasTimer k (checkAlarm cfg value k s)) eqn:Hafter.
  - apply hasTimer_true in Hafter as [t Ht].
    rewrite checkAlarm_alarms in Ht.
    destruct value, (powerOn s), (hasTimer k s) eqn:Hb; simpl in *;
      try done; rewrite ?lookup_insert_eq in Ht; try done.
    all: assert (hasTimer k s = true) by (apply hasTimer_true; eauto);
      congruence.
  - apply hasTimer_false in Hafter. unfold timerOf in Hafter.
    rewrite checkAlarm_alarms in Hafter.
    destruct value, (powerOn s), (hasTimer k s) eqn:Hb; simpl in *;
      try done; rewrite ?lookup_insert_eq in Hafter; try done.
    all: apply hasTimer_true in Hb as [t Ht]; by rewrite Ht in Hafter.
Qed.

(** ** Other operations, as seen from one key *)

Lemma cancelAll_lookup m k :
  cancelAll m !! k = match m !! k with Some _ => Some None | None => None end.
Proof. unfold cancelAll. rewrite lookup_fmap. by destruct (m !! k). Qed.

Lemma powerOff_hasTimer cfg sensors s k :
  hasTimer k (powerStateChanged cfg false sensors s) = false.
Proof.
  apply hasTimer_false. unfold timerOf. simpl. rewrite cancelAll_lookup.
  by destruct (alarms s !! k).
Qed.

Lemma timerExpired_hasTimer k k' s :
  hasTimer k' (timerExpired k s) =
    if bool_decide (k = k') then false else hasTimer k' s.
Proof.
  unfold timerExpired. case_bool_decide as Hk.
  - subst k'. destruct (timerOf k s) eqn:Ht.
    + apply hasTimer_false. unfold timerOf. simpl.
      by rewrite lookup_insert_eq.
    + by apply hasTimer_false.
  - destruct (timerOf k s); [|done].
    apply hasTimer_alarms. simpl. by rewrite lookup_insert_ne.
Qed.

Lemma foldl_invariant {A B} (P : A -> Prop) (f : A -> B -> A) l :
  (forall a b, P a -> P (f a b)) -> forall a, P a -> P (foldl f a l).
Proof. intros Hf. induction l as [|b l IH]; simpl; auto. Qed.

(** ** A running timer means a tripped alarm under power *)

Lemma checkAlarm_Sound cfg value k s :
  Sound s -> Sound (checkAlarm cfg value k s).
Proof.
  intros Hs k' Ht. rewrite checkAlarm_lastValue, checkAlarm_powerOn.
  destruct (decide (k = k')) as [<-|Hne].
  - rewrite checkAlarm_hasTimer in Ht. rewrite lookup_insert_eq.
    destruct value; [|done]. split; [done|].
    destruct (powerOn s) eqn:Hp; [done|]. simpl in Ht.
    destruct (Hs k Ht); congruence.
  - rewrite lookup_insert_ne by done. apply Hs.
    rewrite <- Ht. symmetry. apply hasTimer_alarms.
    by apply checkAlarm_other.
Qed.

Lemma checkAlarms_Sound cfg sensors s :
  Sound s -> Sound (checkAlarms cfg sensors s).
Proof.
  intros Hs. unfold checkAlarms. apply foldl_invariant; [|done].
  intros a k Ha. unfold recheck.
  destruct (sensors k); [by apply checkAlarm_Sound|done].
Qed.

Lemma step_Sound cfg s e : Sound s -> Sound (step cfg s e).
Proof.
  intros Hs. destruct e as [value k|[|] sensors|k]; cbn [step].
  - by apply checkAlarm_Sound.
  - unfold powerStateChanged. apply checkAlarms_Sound. intros k Ht.
    assert (hasTimer k s = true) as Hk by done.
    destruct (Hs k Hk). done.
  - intros k Ht. by rewrite powerOff_hasTimer in Ht.
  - intros k' Ht. rewrite timerExpired_hasTimer in Ht.
    case_bool_decide; [done|].
    destruct (Hs k' Ht) as [Hv Hp]. split; [|rewrite <- Hp];
      unfold timerExpired; by destruct (timerOf k s).
Qed.

Lemma run_Sound cfg evs s : Sound s -> Sound (run cfg evs s).
Proof. apply foldl_invariant. intros a e. apply step_Sound. Qed.

Lemma emplaceNull_timerless m k : timerless m -> timerless (emplaceNull m k).
Proof.
  intros Hm k'. unfold emplaceNull. destruct (m !! k) eqn:Hk; [apply Hm|].
  destruct (decide (k = k')) as [<-|Hne].
  - right. by rewrite lookup_insert_eq.
  - rewrite lookup_insert_ne by done. apply Hm.
Qed.

Lemma findAlarms_timerless found s :
  timerless (alarms s) -> timerless (alarms (findAlarms found s)).
Proof.
  intros Hm. unfold findAlarms. cbn [alarms].
  apply foldl_invariant; [|done].
  intros a b. apply emplaceNull_timerless.
Qed.

Lemma startup_hasTimer found power k :
  hasTimer k (startup found power) = false.
Proof.
  apply hasTimer_false. unfold timerOf, startup.
  destruct (findAlarms_timerless found (mkMonitor ∅ power [] 0 ∅)
              (fun k' => or_introl (lookup_empty k')) k) as [H|H];
    by rewrite H.
Qed.

Lemma startup_Sound found power : Sound (startup found power).
Proof. intros k Ht. by rewrite startup_hasTimer in Ht. Qed.

(** ** A tripped alarm under power has a running timer, unless its
    escalation has lapsed *)

Lemma checkAlarm_Armed_self cfg value k s : Armed k (checkAlarm cfg value k s).
Proof.
  intros Hv Hp. rewrite checkAlarm_lastValue, lookup_insert_eq in Hv.
  rewrite checkAlarm_powerOn in Hp. rewrite checkAlarm_hasTimer.
  destruct value; [|done]. by rewrite Hp.
Qed.

Lemma checkAlarm_Armed_other cfg value k k' s :
  k' <> k -> Armed k s -> Armed k (checkAlarm cfg value k' s).
Proof.
  intros Hne Hs Hv Hp.
  rewrite checkAlarm_lastValue, lookup_insert_ne in Hv by done.
  rewrite checkAlarm_powerOn in Hp.
  rewrite <- (Hs Hv Hp). apply hasTimer_alarms. by apply checkAlarm_other.
Qed.

Lemma checkAlarms_foldl cfg sensors s :
  checkAlarms cfg sensors s =
    foldl (recheck cfg sensors) s (fst <$> map_to_list (alarms s)).
Proof. reflexivity. Qed.

Lemma recheck_Armed cfg sensors k l :
  is_Some (sensors k) ->
  forall a, Armed k a \/ k ∈ l -> Armed k (foldl (recheck cfg sensors) a l).
Proof.
  intros [v Hv]. induction l as [|x l IH]; intros a [Ha|Hin]; simpl.
  - done.
  - by apply elem_of_nil in Hin.
  - apply IH. left. unfold recheck. destruct (sensors x) eqn:Hx; [|done].
    destruct (decide (x = k)) as [->|Hne].
    + apply checkAlarm_Armed_self.
    + by apply checkAlarm_Armed_other.
  - apply elem_of_cons in Hin as [->|Hin].
    + apply IH. left. unfold recheck. rewrite Hv.
      apply checkAlarm_Armed_self.
    + apply IH. by right.
Qed.

Lemma recheck_untouched cfg sensors k l :
  k ∉ l ->
  forall a, alarms (foldl (recheck cfg sensors) a l) !! k = alarms a !! k.
Proof.
  induction l as [|x l IH]; intros Hnot a; simpl; [done|].
  apply not_elem_of_cons in Hnot as [Hne Hnot].
  rewrite IH by done. unfold recheck. destruct (sensors x); [|done].
  by apply checkAlarm_other.
Qed.

Lemma keys_of_alarms (k : AlarmKey) (m : gmap AlarmKey (option Timer)) :
  k ∈ (fst <$> map_to_list m) <-> is_Some (m !! k).
Proof.
  rewrite list_elem_of_fmap. split.
  - intros [[k' x] [-> Hin]]. apply elem_of_map_to_list in Hin. by exists x.
  - intros [x Hx]. exists (k, x). split; [done|].
    by apply elem_of_map_to_list.
Qed.

Lemma Armed_not_Stale k s : Armed k s -> ~ Stale k s.
Proof. intros Ha [Hv [Hp Ht]]. rewrite (Ha Hv Hp) in Ht. done. Qed.

Lemma Tracked_settled k s :
  (is_Some (alarms s !! k) -> Armed k s) -> Tracked k s false.
Proof.
  intros Ha Hin. split; [done|]. intros Hs.
  by destruct (Armed_not_Stale k s (Ha Hin)).
Qed.

Lemma Tracked_same k s s' flag :
  alarms s' !! k = alarms s !! k ->
  lastValue s' !! k = lastValue s !! k ->
  powerOn s' = powerOn s ->
  Tracked k s flag -> Tracked k s' flag.
Proof.
  intros Ha Hl Hp Ht Hin. rewrite Ha in Hin. unfold Stale.
  rewrite Hl, Hp, (hasTimer_alarms k s s' Ha). by apply Ht.
Qed.

Lemma checkAlarm_lastValue_other cfg value k k' s :
  k' <> k -> lastValue (checkAlarm cfg value k' s) !! k = lastValue s !! k.
Proof. intros Hne. by rewrite checkAlarm_lastValue, lookup_insert_ne. Qed.

Lemma recheck_powerOn cfg sensors l :
  forall a, powerOn (foldl (recheck cfg sensors) a l) = powerOn a.
Proof.
  induction l as [|x l IH]; intros a; simpl; [done|].
  rewrite IH. unfold recheck.
  destruct (sensors x); [apply checkAlarm_powerOn|done].
Qed.

Lemma recheck_unread cfg sensors k l :
  sensors k = None ->
  forall a,
    alarms (foldl (recheck cfg sensors) a l) !! k = alarms a !! k /\
    lastValue (foldl (recheck cfg sensors) a l) !! k = lastValue a !! k.
Proof.
  intros Hk. induction l as [|x l IH]; intros a; simpl; [done|].
  destruct (IH (recheck cfg sensors a x)) as [-> ->].
  unfold recheck. destruct (sensors x) as [v|] eqn:Hx; [|done].
  assert (x <> k) as Hne by (intros ->; congruence).
  split; [by apply checkAlarm_other|by apply checkAlarm_lastValue_other].
Qed.

Lemma powerOn_Armed cfg sensors k s :
  is_Some (sensors k) ->
  is_Some (alarms (powerStateChanged cfg true sensors s) !! k) ->
  Armed k (powerStateChanged cfg true sensors s).
Proof.
  intros Hk. unfold powerStateChanged. rewrite checkAlarms_foldl.
  cbn [alarms].
  destruct (decide (k ∈ (fst <$> map_to_list (alarms s)))) as [Hin|Hnot].
  - intros _. apply recheck_Armed; [done|by right].
  - intros Hsome. rewrite recheck_untouched in Hsome by done.
    cbn [alarms] in Hsome. by apply keys_of_alarms in Hsome.
Qed.

Lemma timerExpired_fired k s :
  hasTimer k s = true ->
  alarms (timerExpired k s) !! k = Some None /\
  lastValue (timerExpired k s) = lastValue s /\
  powerOn (timerExpired k s) = powerOn s.
Proof.
  intros Ht. unfold timerExpired.
  apply hasTimer_true in Ht as [t Ht].
  apply timerOf_Some in Ht. rewrite Ht. cbn.
  by rewrite lookup_insert_eq.
Qed.

Lemma timerExpired_other k k' s :
  k' <> k \/ hasTimer k s = false ->
  alarms (timerExpired k' s) !! k = alarms s !! k /\
  lastValue (timerExpired k' s) = lastValue s /\
  powerOn (timerExpired k' s) = powerOn s.
Proof.
  intros Hor. unfold timerExpired.
  destruct (timerOf k' s) as [t|] eqn:Ht; [|done]. cbn.
  destruct (decide (k' = k)) as [->|Hne].
  - destruct Hor as [Hne|Hno]; [done|].
    apply hasTimer_false in Hno. congruence.
  - by rewrite lookup_insert_ne.
Qed.

Lemma step_Tracked cfg k s flag e :
  Sound s -> Tracked k s flag ->
  Tracked k (step cfg s e) (negb (settles k e) && (flag || lapses k s e)).
Proof.
  intros Hs Ht. destruct e as [value k'|[|] sensors|k'];
    cbn [step settles lapses].
  - destruct (decide (k' = k)) as [->|Hne].
    + rewrite bool_decide_eq_true_2 by done. simpl.
      apply Tracked_settled. intros _. apply checkAlarm_Armed_self.
    + rewrite bool_decide_eq_false_2 by done. simpl. rewrite orb_false_r.
      apply (Tracked_same k s);
        [by apply checkAlarm_other | by apply checkAlarm_lastValue_other
        | apply checkAlarm_powerOn | done].
  - destruct (sensors k) as [v|] eqn:Hk.
    + rewrite (bool_decide_eq_true_2 (is_Some (Some v))) by eauto. simpl.
      apply Tracked_settled. apply powerOn_Armed. rewrite Hk. eauto.
    + rewrite (bool_decide_eq_false_2 (is_Some None))
        by (intros [? ?]; done).
      rewrite (bool_decide_eq_true_2 (None = None)) by done. simpl.
      intros Hin. unfold powerStateChanged, checkAlarms in *.
      cbn [alarms] in *.
      set (s1 := mkMonitor (alarms s) true (journal s) (shutdowns s)
                           (lastValue s)) in *.
      destruct (recheck_unread cfg sensors k
                  (fst <$> map_to_list (alarms s)) Hk s1) as [Ha Hl].
      rewrite Ha in Hin. cbn [alarms s1] in Hin. specialize (Ht Hin).
      unfold Stale in *.
      rewrite Hl, recheck_powerOn, (hasTimer_alarms k s1 _ Ha).
      change (hasTimer k s1) with (hasTimer k s). cbn [lastValue powerOn s1].
      pose proof (Hs k) as Hsk.
      destruct (hasTimer k s) eqn:Htm.
      * destruct (Hsk eq_refl) as [Hv Hp]. rewrite Hp. simpl.
        rewrite orb_false_r. split; [|by intros (? & ? & ?)].
        intros Hf. apply Ht in Hf as (? & ? & ?). done.
      * case_bool_decide as Hv.
        -- destruct (powerOn s) eqn:Hp; simpl.
           ++ rewrite orb_false_r. rewrite Ht. split; [done|].
              intros _. done.
           ++ rewrite orb_true_r. done.
        -- rewrite andb_false_r, orb_false_r. split.
           ++ intros Hf. apply Ht in Hf as (? & ? & ?). done.
           ++ intros (? & ? & ?). done.
  - simpl. apply Tracked_settled. intros _ _ Hp. done.
  - simpl. destruct (decide (k' = k)) as [->|Hne].
    + rewrite bool_decide_eq_true_2 by done. simpl.
      destruct (hasTimer k s) eqn:Htm.
      * rewrite orb_true_r.
        destruct (timerExpired_fired k s Htm) as (Ha & Hl & Hp).
        destruct (Hs k Htm) as [Hv Hpw].
        intros _. split; [|done]. intros _. unfold Stale.
        rewrite Hl, Hp. split; [done|]. split; [done|].
        rewrite timerExpired_hasTimer. by rewrite bool_decide_eq_true_2.
      * rewrite orb_false_r.
        destruct (timerExpired_other k k s (or_intror Htm)) as (Ha & Hl & Hp).
        apply (Tracked_same k s); [done|by rewrite Hl|done|done].
    + rewrite bool_decide_eq_false_2 by done. simpl. rewrite orb_false_r.
      destruct (timerExpired_other k k' s (or_introl Hne)) as (Ha & Hl & Hp).
      apply (Tracked_same k s); [done|by rewrite Hl|done|done].
Qed.

Lemma run_Tracked cfg k evs :
  forall s flag,
    Sound s -> Tracked k s flag ->
    Tracked k (run cfg evs s) (lapsed cfg k s flag evs).
Proof.
  unfold run. induction evs as [|e evs IH]; intros s flag Hs Ht; [done|].
  simpl. apply IH; [by apply step_Sound|by apply step_Tracked].
Qed.

Lemma startup_Tracked found power k : Tracked k (startup found power) false.
Proof.
  apply Tracked_settled. intros _ Hv.
  unfold startup, findAlarms in Hv. by cbn in Hv.
Qed.

(** ** The claims *)

(** C1, in the form that holds.  At every state reached from discovery by
    [checkAlarm] calls, power transitions and timer expiries, a key with a
    timer has a tripped last-known value and power is on.  Conversely a key
    of the registry whose last-known value is tripped while power is on has
    a timer exactly when its escalation has not lapsed: it lapses when its
    running timer expires, or when power comes back on with the key last
    known tripped and the re-check fails to read it, and it stays lapsed
    until the key is next settled by a [checkAlarm] call for it, a power-off
    or a power-on re-check that reads it. *)
Theorem timer_only_if_tripped_and_powered cfg found power evs k :
  let s := run cfg evs (startup found power) in
  (hasTimer k s = true -> lastValue s !! k = Some true /\ powerOn s = true) /\
  (is_Some (alarms s !! k) ->
   lastValue s !! k = Some true -> powerOn s = true ->
   (hasTimer k s = true <->
    lapsed cfg k (startup found power) false evs = false)).
Proof.
  intros s. split.
  - apply run_Sound, startup_Sound.
  - intros Hin Hv Hp.
    pose proof (run_Tracked cfg k evs (startup found power) false
                  (startup_Sound found power)
                  (startup_Tracked found power k) Hin) as Ht.
    fold s in Ht. unfold Stale in Ht.
    destruct (lapsed cfg k (startup found power) false evs).
    + destruct (proj1 Ht eq_refl) as (_ & _ & Hn). rewrite Hn. done.
    + destruct (hasTimer k s) eqn:Htm; [done|].
      destruct Ht as [_ Ht]. by specialize (Ht (conj Hv (conj Hp eq_refl))).
Qed.

Lemma timer_only_if_tripped_and_powered_witness :
  let s := run cfg0 expireThenTripAgain (startup [keyA; keyB] true) in
  (lastValue s !! keyA = Some true /\ powerOn s = true) /\
  (hasTimer keyA s = true <->
   lapsed cfg0 keyA (startup [keyA; keyB] true) false expireThenTripAgain
   = false).
Proof.
  destruct (timer_only_if_tripped_and_powered
              cfg0 [keyA; keyB] true expireThenTripAgain keyA) as [H1 H2].
  split.
  - apply H1. vm_compute. reflexivity.
  - apply H2.
    + vm_compute. eexists. reflexivity.
    + vm_compute. reflexivity.
    + vm_compute. reflexivity.
Defined.

(** After an expiry the key is settled again by the next [checkAlarm] call
    for it, and by a power cycle whose re-check reads it; a power cycle under
    which the alarm trips is settled by the re-check. *)
Example settled_after_expiry :
  Forall (fun evs =>
            lapsed cfg0 keyA (startup [keyA; keyB] true) false evs = false /\
            hasTimer keyA (run cfg0 evs (startup [keyA; keyB] true)) = true)
         [expireThenTripAgain; expireThenPowerCycle; tripThenPowerCycle].
Proof. repeat constructor; vm_compute; reflexivity. Qed.

(** C1 as stated fails: after the timer of a tripped alarm has fired, the
    key is in the registry, its last-known value is tripped and power is
    on, yet no timer is present. *)
Lemma timer_iff_fails_after_expiry :
  let s := run cfg0 [EvCheckAlarm true keyA; EvTimerExpired keyA]
               (startup [keyA] true) in
  alarms s !! keyA = Some None /\
  ~ (hasTimer keyA s = true <->
     lastValue s !! keyA = Some true /\ powerOn s = true).
Proof.
  split.
  - vm_compute. reflexivity.
  - intros [_ H].
    assert (hasTimer keyA
              (run cfg0 [EvCheckAlarm true keyA; EvTimerExpired keyA]
                   (startup [keyA] true)) = true) as Hc.
    { apply H. split; vm_compute; reflexivity. }
    vm_compute in Hc. discriminate.
Qed.

(** The same happens when a power-on re-check cannot read the alarm. *)
Example timer_iff_fails_after_failed_read :
  let s := run cfg0 [EvCheckAlarm true keyA;
                     EvPowerState false (fun _ => None);
                     EvPowerState true (fun _ => None)]
               (startup [keyA] true) in
  hasTimer keyA s = false /\
  lastValue s !! keyA = Some true /\ powerOn s = true.
Proof. repeat split; vm_compute; reflexivity. Qed.

(** C2.  [checkAlarm value k] arms a timer for [k], with the delay of the
    class of [k], exactly when [value] is true, power is on and [k] has no
    timer; it removes the timer of [k] exactly when [value] is false and
    [k] has a timer; in every other case the registry and the event log
    are unchanged.  Power state and shutdown count never change. *)
Theorem checkAlarm_starts_stops_or_ignores cfg value k s :
  let s' := checkAlarm cfg value k s in
  (if starts value k s then
     alarms s' =
       <[k := Some (mkTimer k (delayFor cfg (shutdownTypeOf k)))]> (alarms s)
     /\ timerOf k s' = Some (mkTimer k (delayFor cfg (shutdownTypeOf k)))
     /\ journal s' = journal s ++ [AlarmAsserted k]
   else if stops value k s then
     alarms s' = <[k := None]> (alarms s)
     /\ timerOf k s' = None
     /\ journal s' = journal s ++ [AlarmCleared k]
   else
     alarms s' = alarms s /\ journal s' = journal s) /\
  (hasTimer k s = false /\ hasTimer k s' = true <-> starts value k s = true) /\
  (hasTimer k s = true /\ hasTimer k s' = false <-> stops value k s = true) /\
  (forall k', k' <> k -> alarms s' !! k' = alarms s !! k') /\
  powerOn s' = powerOn s /\ shutdowns s' = shutdowns s.
Proof.
  cbv zeta. unfold starts, stops.
  rewrite checkAlarm_hasTimer, checkAlarm_journal, checkAlarm_powerOn,
    checkAlarm_shutdowns.
  unfold timerOf. rewrite checkAlarm_alarms.
  repeat split.
  - destruct value, (powerOn s), (hasTimer k s); simpl;
      rewrite ?lookup_insert_eq; done.
  - intros [H1 H2]. rewrite H1 in *. destruct value, (powerOn s); done.
  - destruct value, (powerOn s), (hasTimer k s); done.
  - destruct value, (powerOn s), (hasTimer k s); done.
  - intros [H1 H2]. rewrite H1 in *. destruct value, (powerOn s); done.
  - destruct value, (powerOn s), (hasTimer k s); done.
  - destruct value, (powerOn s), (hasTimer k s); done.
  - intros k' Hne.
    destruct value, (powerOn s), (hasTimer k s); simpl;
      rewrite ?lookup_insert_ne; done.
Qed.

Lemma checkAlarm_starts_stops_or_ignores_witness :
  let s := startup [keyA; keyB] true in
  alarms (checkAlarm cfg0 true keyA s) !! keyB = alarms s !! keyB.
Proof.
  destruct (checkAlarm_starts_stops_or_ignores
              cfg0 true keyA (startup [keyA; keyB] true))
    as [_ [_ [_ [H _]]]].
  apply H. discriminate.
Defined.

Example checkAlarm_trips_hard :
  timerOf keyA (checkAlarm cfg0 true keyA (startup [keyA; keyB] true))
  = Some (mkTimer keyA 23000).
Proof. vm_compute. reflexivity. Qed.

Example checkAlarm_trips_soft :
  timerOf keyB (checkAlarm cfg0 true keyB (startup [keyA; keyB] true))
  = Some (mkTimer keyB 900000).
Proof. vm_compute. reflexivity. Qed.

Example checkAlarm_unpowered :
  timerOf keyA (checkAlarm cfg0 true keyA (startup [keyA; keyB] false))
  = None.
Proof. vm_compute. reflexivity. Qed.

(** ** Power off *)

Lemma step_Unpowered cfg s e :
  keepsPowerOff e = true -> Unpowered s -> Unpowered (step cfg s e).
Proof.
  intros He [Hp Hs]. destruct e as [value k|[|] sensors|k]; cbn [step];
    try discriminate; split.
  - by rewrite checkAlarm_powerOn.
  - intros k'. destruct (decide (k = k')) as [<-|Hne].
    + rewrite checkAlarm_hasTimer, Hp, Hs. by destruct value.
    + rewrite <- (Hs k'). apply hasTimer_alarms. by apply checkAlarm_other.
  - done.
  - intros k. apply powerOff_hasTimer.
  - unfold timerExpired. by destruct (timerOf k s).
  - intros k'. rewrite timerExpired_hasTimer. by case_bool_decide.
Qed.

Lemma run_Unpowered cfg evs :
  forallb keepsPowerOff evs = true ->
  forall s, Unpowered s -> Unpowered (run cfg evs s).
Proof.
  unfold run. induction evs as [|e evs IH]; simpl; intros He s Hs; [done|].
  apply andb_prop in He as [He Hes]. apply IH; [done|].
  by apply step_Unpowered.
Qed.

(** C3.  A transition to power off leaves no key with a timer, whatever
    the alarm values, and adds nothing to the event log (so no "cleared"
    record) and requests no shutdown; and as long as no power-on arrives,
    no event gives any key a timer. *)
Theorem powerOff_cancels_every_timer cfg sensors s evs k :
  let s' := powerStateChanged cfg false sensors s in
  forallb keepsPowerOff evs = true ->
  hasTimer k s' = false /\
  journal s' = journal s /\
  shutdowns s' = shutdowns s /\
  dom (alarms s') = dom (alarms s) /\
  hasTimer k (run cfg evs s') = false.
Proof.
  intros s' Hevs. repeat split.
  - apply powerOff_hasTimer.
  - unfold s', powerStateChanged, cancelAll. cbn [alarms]. apply dom_fmap_L.
  - apply (run_Unpowered cfg evs Hevs s'). split; [done|].
    intros k'. apply powerOff_hasTimer.
Qed.

Lemma powerOff_cancels_every_timer_witness :
  hasTimer keyA trippedBoth = true /\
  let s' := powerStateChanged cfg0 false (fun _ => Some true) trippedBoth in
  hasTimer keyA s' = false /\
  journal s' = journal trippedBoth /\
  shutdowns s' = shutdowns trippedBoth /\
  dom (alarms s') = dom (alarms trippedBoth) /\
  hasTimer keyA
    (run cfg0 [EvCheckAlarm true keyA; EvTimerExpired keyA;
               EvCheckAlarm false keyB] s') = false.
Proof.
  split.
  - vm_compute. reflexivity.
  - apply (powerOff_cancels_every_timer cfg0 (fun _ => Some true)
             trippedBoth
             [EvCheckAlarm true keyA; EvTimerExpired keyA;
              EvCheckAlarm false keyB] keyA).
    vm_compute. reflexivity.
Defined.

End ShutdownAlarmSpec.

(* ===================================================================== *)
(** * Properties of the match-filter functors *)
(* ===================================================================== *)

Module FunctorSpec.
Import Functor FunctorMore.

(** ** Reading a trace *)

Lemma handlerCalls_app {Arg} (t1 t2 : list (Obs Arg)) :
  handlerCalls (t1 ++ t2) = handlerCalls t1 ++ handlerCalls t2.
Proof. apply omap_app. Qed.

Lemma errorLogs_app {Arg} (t1 t2 : list (Obs Arg)) :
  errorLogs (t1 ++ t2) = errorLogs t1 ++ errorLogs t2.
Proof. apply List.filter_app. Qed.

Lemma invoke_trace {Zone Arg} (h : Arg -> Zone -> Outcome unit * Zone) a
    (w : World Zone Arg) :
  trace (snd (invoke h a w)) = trace w ++ [Invoked a].
Proof. unfold invoke, onZone. by destruct (h a (zone w)). Qed.

Lemma invoke_zone {Zone Arg} (h : Arg -> Zone -> Outcome unit * Zone) a
    (w : World Zone Arg) :
  zone (snd (invoke h a w)) = snd (h a (zone w)).
Proof. unfold invoke, onZone. by destruct (h a (zone w)). Qed.

Lemma invoke_outcome {Zone Arg} (h : Arg -> Zone -> Outcome unit * Zone) a
    (w : World Zone Arg) :
  fst (invoke h a w) = fst (h a (zone w)).
Proof. unfold invoke, onZone. by destruct (h a (zone w)). Qed.

Lemma app_one_more {A} (l : list A) (x : A) : l <> l ++ [x].
Proof.
  intros H. apply (f_equal length) in H. rewrite length_app in H.
  simpl in H. lia.
Qed.

Section PropertyFacts.
Context {Zone T : Type} {api : PropertyAPI Zone T}.

Lemma readDict_lookup entries (props : gmap string T) name :
  readDict entries = Done props ->
  props !! name =
    match wireLookup name entries with
    | Some wv => match readVariant wv with
                 | Done v => Some v
                 | Threw _ => None
                 end
    | None => None
    end.
Proof.
  revert props. induction entries as [|[n wv] rest IH]; intros props; simpl.
  - intros [= <-]. apply lookup_empty.
  - destruct (readVariant wv) as [v|f] eqn:Hv; [|done].
    destruct (readDict rest) as [m|f] eqn:Hr; [|done].
    intros [= <-]. case_bool_decide as Hn.
    + subst n. by rewrite lookup_insert_eq, Hv.
    + rewrite lookup_insert_ne by done. by apply IH.
Qed.

Lemma readDict_entry_read entries (props : gmap string T) name wv :
  readDict entries = Done props ->
  wireLookup name entries = Some wv ->
  exists v, readVariant wv = Done v /\ props !! name = Some v.
Proof.
  revert props. induction entries as [|[n wv'] rest IH]; intros props; simpl.
  - done.
  - destruct (readVariant wv') as [v|f] eqn:Hv; [|done].
    destruct (readDict rest) as [m|f] eqn:Hr; [|done].
    intros [= <-]. case_bool_decide as Hn.
    + intros [= <-]. subst n. exists v. by rewrite lookup_insert_eq.
    + intros Hl. destruct (IH m eq_refl Hl) as [v' [H1 H2]].
      exists v'. by rewrite lookup_insert_ne.
Qed.

Lemma readDict_total entries :
  (forall wv, exists v : T, readVariant wv = Done v) ->
  exists props, readDict entries = Done props.
Proof.
  intros Hv. induction entries as [|[n wv] rest [m IH]]; simpl.
  - by exists ∅.
  - destruct (Hv wv) as [v ->]. rewrite IH. by eexists.
Qed.

Lemma readNested_total entries :
  (forall wv, exists v : T, readVariant wv = Done v) ->
  exists intfProp, readNested entries = Done intfProp.
Proof.
  intros Hv. induction entries as [|[n props] rest [m IH]]; simpl.
  - by exists ∅.
  - destruct (readDict_total props Hv) as [p ->]. rewrite IH. by eexists.
Qed.

(** ** Properties: live message *)

Lemma signal_interface_differs (self : Properties.Properties Zone T)
    (m : PropertiesChangedMsg) (w : World Zone T) :
  pcInterface m <> Properties._iface self ->
  Properties.signal self (Some m) w = (Done tt, w).
Proof.
  intros Hne. unfold Properties.signal. by rewrite bool_decide_eq_true_2.
Qed.

Lemma signal_interface_matches (self : Properties.Properties Zone T)
    (m : PropertiesChangedMsg) (w : World Zone T) props :
  pcInterface m = Properties._iface self ->
  readDict (pcChanged m) = Done props ->
  Properties.signal self (Some m) w =
    match props !! Properties._property self with
    | Some v => invoke (Properties._handler self) v w
    | None =>
        (Done tt,
         mkWorld (zone w)
           (trace w ++
            [LogErr "Unable to find property on interface"
               (Properties._property self) (Properties._iface self)
               (Properties._path self)]))
    end.
Proof.
  intros Heq Hread. unfold Properties.signal.
  rewrite bool_decide_eq_false_2 by auto.
  unfold bind, liftOutcome. rewrite Hread.
  by destruct (props !! Properties._property self).
Qed.

Lemma signal_calls_iff (self : Properties.Properties Zone T)
    (m : PropertiesChangedMsg) (w : World Zone T) props v :
  readDict (pcChanged m) = Done props ->
  handlerCalls (trace (snd (Properties.signal self (Some m) w)))
  = handlerCalls (trace w) ++ [v] <->
  pcInterface m = Properties._iface self /\
  props !! Properties._property self = Some v.
Proof.
  intros Hread.
  destruct (decide (pcInterface m = Properties._iface self)) as [Hi|Hi].
  - rewrite (signal_interface_matches self m w props Hi Hread).
    destruct (props !! Properties._property self) as [v'|] eqn:Hp.
    + rewrite invoke_trace, handlerCalls_app. simpl. split.
      * intros H. apply app_inv_head in H. split; congruence.
      * intros [_ [= ->]]. done.
    + simpl. rewrite handlerCalls_app, app_nil_r. split.
      * intros H. by apply app_one_more in H.
      * by intros [_ ?].
  - rewrite (signal_interface_differs self m w Hi). simpl. split.
    + intros H. by apply app_one_more in H.
    + by intros [? _].
Qed.


(** C5, as the code has it.  The binding has no handling of its own for a
    value of another type.  When the filter property is in a live message
    of the filter interface, the handler receives whatever the library's
    read of that wire value yields; when the library's read of the
    dictionary throws, the fault leaves the functor and nothing else
    happens.  In neither case does the functor log an error, and it never
    happens that the call returns normally without a handler call. *)
Theorem Properties_signal_relays_library_read
    (self : Properties.Properties Zone T) (m : PropertiesChangedMsg)
    (w : World Zone T) (wv : WireValue) :
  pcInterface m = Properties._iface self ->
  wireLookup (Properties._property self) (pcChanged m) = Some wv ->
  let r := Properties.signal self (Some m) w in
  match readDict (pcChanged m) with
  | Done _ =>
      exists v, readVariant wv = Done v /\
                r = invoke (Properties._handler self) v w
  | Threw f => r = (Threw f, w)
  end /\
  errorLogs (trace (snd r)) = errorLogs (trace w) /\
  ~ (fst r = Done tt /\ handlerCalls (trace (snd r)) = handlerCalls (trace w)).
Proof.
  intros Hi Hl. cbv zeta. unfold Properties.signal.
  rewrite bool_decide_eq_false_2 by auto.
  unfold bind, liftOutcome.
  destruct (readDict (pcChanged m)) as [props|f] eqn:Hread.
  - destruct (readDict_entry_read _ _ _ _ Hread Hl) as [v [Hv Hp]].
    rewrite Hp. split; [eauto|].
    rewrite invoke_trace, errorLogs_app, handlerCalls_app. simpl.
    split; [by rewrite app_nil_r|].
    intros [_ H]. symmetry in H. by apply app_one_more in H.
  - split; [done|]. split; [done|]. by intros [? _].
Qed.

(** C7, as the code has it.  An empty filter is not a wildcard.  The
    functor built from a handler alone compares the interface name of a
    live message with the empty string: it does nothing for a message of
    any named interface, and invokes its handler only for a message whose
    interface name is empty and whose mapping has an entry under the empty
    property name.  Group enumeration never consults the filter, so there
    the functor built from a handler alone behaves as any other. *)
Theorem getProperty_filter_is_not_a_wildcard
    (handler : T -> Zone -> Outcome unit * Zone)
    (m : PropertiesChangedMsg) (w : World Zone T)
    (path iface property : string) (group : Group) :
  let r := Properties.signal (getProperty handler) (Some m) w in
  (pcInterface m <> "" -> r = (Done tt, w)) /\
  (forall props v,
     readDict (pcChanged m) = Done props ->
     handlerCalls (trace (snd r)) = handlerCalls (trace w) ++ [v] <->
     pcInterface m = "" /\ props !! "" = Some v) /\
  Properties.init (propertiesChanged path iface property handler) group w
  = Properties.init (getProperty handler) group w.
Proof.
  cbv zeta. split; [|split].
  - apply (signal_interface_differs (getProperty handler)).
  - intros props v. apply (signal_calls_iff (getProperty handler)).
  - reflexivity.
Qed.

(** ** Properties: null message *)


(** ** Properties: group enumeration *)

Lemma Properties_member_run (self : Properties.Properties Zone T)
    (m : Member) (w : World Zone T) :
  (forall p i pr z, onlyBusErrors (fst (getPropertyByName p i pr z))) ->
  (forall v z, onlyBusErrors (fst (Properties._handler self v z))) ->
  let read := getPropertyByName (pathPos m) (intfPos m) (propPos m) (zone w) in
  Properties.forMember self m w =
    (Done tt,
     match fst read with
     | Threw f =>
         mkWorld (snd read)
           (trace w ++
            [GetPropertyByName (pathPos m) (intfPos m) (propPos m) (Threw f)])
     | Done v =>
         mkWorld (snd (Properties._handler self v (snd read)))
           (trace w ++
            [GetPropertyByName (pathPos m) (intfPos m) (propPos m) (Done v);
             Invoked v])
     end).
Proof.
  intros Hread Hh. cbv zeta.
  unfold Properties.forMember, tryCatch, bind, invoke, onZone, ret. simpl.
  specialize (Hread (pathPos m) (intfPos m) (propPos m) (zone w)).
  destruct (getPropertyByName _ _ _ (zone w)) as [[v|f] z1]; simpl in *.
  - specialize (Hh v z1).
    destruct (Properties._handler self v z1) as [[[]|f] z2]; simpl in *.
    + by rewrite <- app_assoc.
    + rewrite Hh. simpl. by rewrite <- app_assoc.
  - by rewrite Hread.
Qed.

(** C6.  Provided the reads throw nothing but bus errors (and the handler
    throws nothing the enumeration does not catch), the group entry point
    does what the specification asks of the enumeration: it returns
    normally for every group, and it leaves the zone and the trace that
    result from going through the members in order, reading each from the
    zone, going on to the next member when the read failed, and handing the
    value to the handler when it succeeded. *)
Theorem Properties_init_enumerates (self : Properties.Properties Zone T)
    (group : Group) (w : World Zone T) :
  (forall p i pr z, onlyBusErrors (fst (getPropertyByName p i pr z))) ->
  (forall v z, onlyBusErrors (fst (Properties._handler self v z))) ->
  let spec := enumerateSpec (Properties._handler self) group (zone w) in
  Properties.init self group w
  = (Done tt, mkWorld (fst spec) (trace w ++ snd spec)).
Proof.
  intros Hread Hh. cbv zeta. unfold Properties.init. revert w.
  induction group as [|m rest IH]; intros w; simpl.
  - unfold ret. rewrite app_nil_r. by destruct w.
  - unfold bind. rewrite (Properties_member_run self m w Hread Hh).
    destruct (getPropertyByName _ _ _ (zone w)) as [[v|f] z1]; simpl;
      rewrite IH; simpl; by rewrite <- app_assoc.
Qed.

(** ** InterfaceAdded *)


End PropertyFacts.

(** ** NameOwner: group enumeration *)

Section NameOwnerFacts.
Context {Zone : Type} {bus : BusAPI Zone}.

Lemma forMembers_app (self : NameOwner.NameOwner Zone) (st : string * bool)
    (g1 g2 : Group) (w : World Zone (string * bool)) :
  NameOwner.forMembers self st (g1 ++ g2) w =
    match NameOwner.forMembers self st g1 w with
    | (Done st1, w1) => NameOwner.forMembers self st1 g2 w1
    | (Threw e, w1) => (Threw e, w1)
    end.
Proof.
  revert st w. induction g1 as [|m g1 IH]; intros st w; simpl; [done|].
  unfold bind.
  destruct (NameOwner.forMember self st m w) as [[st1|e] w1];
    [apply IH|done].
Qed.

Lemma NameOwner_member_run (self : NameOwner.NameOwner Zone)
    (st : string * bool) (m : Member) (w : World Zone (string * bool)) :
  (forall p i z, onlyMethodErrors (fst (getService p i z))) ->
  (forall n z, onlyMethodErrors (fst (callNameHasOwner n z))) ->
  (forall a z, fst (NameOwner._handler self a z) = Done tt) ->
  let resolved := getService (pathPos m) (intfPos m) (zone w) in
  NameOwner.forMember self st m w =
    match fst resolved with
    | Threw f =>
        (Done ("", false),
         mkWorld (snd resolved)
           (trace w ++ [GetService (pathPos m) (intfPos m) (Threw f)]))
    | Done n =>
        if bool_decide (fst st ≠ n) then
          let query := callNameHasOwner n (snd resolved) in
          match fst query with
          | Threw f =>
              (Done ("", false),
               mkWorld (snd query)
                 (trace w ++ [GetService (pathPos m) (intfPos m) (Done n);
                              NameHasOwner n (Threw f)]))
          | Done h =>
              (Done (n, h),
               mkWorld (snd (NameOwner._handler self (n, h) (snd query)))
                 (trace w ++ [GetService (pathPos m) (intfPos m) (Done n);
                              NameHasOwner n (Done h);
                              Invoked (n, h)]))
          end
        else
          (Done st,
           mkWorld (snd resolved)
             (trace w ++ [GetService (pathPos m) (intfPos m) (Done n)]))
    end.
Proof.
  intros Hs Hq Hh. cbv zeta.
  unfold NameOwner.forMember, tryCatch, bind, invoke, onZone, ret. simpl.
  specialize (Hs (pathPos m) (intfPos m) (zone w)).
  destruct (getService _ _ (zone w)) as [[n|f] z1]; simpl in *.
  - case_bool_decide as Hn; simpl; [|done].
    specialize (Hq n z1).
    destruct (callNameHasOwner n z1) as [[h|f] z2]; simpl in *.
    + specialize (Hh (n, h) z2).
      destruct (NameOwner._handler self (n, h) z2) as [o z3].
      simpl in Hh. subst o. simpl. by rewrite <- !app_assoc.
    + rewrite Hq. simpl. by rewrite <- !app_assoc.
  - by rewrite Hs.
Qed.

Lemma NameOwner_members_run (self : NameOwner.NameOwner Zone)
    (group : Group) :
  (forall p i z, onlyMethodErrors (fst (getService p i z))) ->
  (forall n z, onlyMethodErrors (fst (callNameHasOwner n z))) ->
  (forall a z, fst (NameOwner._handler self a z) = Done tt) ->
  forall st w,
  exists st',
    NameOwner.forMembers self st group w
    = (Done st',
       mkWorld (fst (dedupSpec (NameOwner._handler self) st group (zone w)))
         (trace w ++
          snd (dedupSpec (NameOwner._handler self) st group (zone w)))).
Proof.
  intros Hs Hq Hh. induction group as [|m rest IH]; intros st w; simpl.
  - exists st. unfold ret. rewrite app_nil_r. by destruct w.
  - unfold bind. rewrite (NameOwner_member_run self st m w Hs Hq Hh).
    destruct (getService _ _ (zone w)) as [[n|f] z1]; simpl.
    + case_bool_decide as Hn; simpl.
      * destruct (callNameHasOwner n z1) as [[h|f] z2]; simpl.
        -- edestruct IH as [st' ->]. exists st'. simpl.
           by rewrite <- app_assoc.
        -- edestruct IH as [st' ->]. exists st'. simpl.
           by rewrite <- app_assoc.
      * edestruct IH as [st' ->]. exists st'. simpl. by rewrite <- app_assoc.
    + edestruct IH as [st' ->]. exists st'. simpl. by rewrite <- app_assoc.
Qed.

Lemma NameOwner_escape (self : NameOwner.NameOwner Zone)
    (g1 rest : Group) (m : Member) (w w1 : World Zone (string * bool))
    (st1 : string * bool) (r : Outcome (string * bool) * _) (f : Fault) :
  NameOwner.forMembers self ("", false) g1 w = (Done st1, w1) ->
  NameOwner.forMember self st1 m w1 = (Threw f, snd r) ->
  NameOwner.init self (g1 ++ m :: rest) w = (Threw f, snd r).
Proof.
  intros H1 Hm. unfold NameOwner.init, bind.
  rewrite forMembers_app, H1. simpl. unfold bind. by rewrite Hm.
Qed.

(** C9, in the form that holds.  Provided resolution and ownership query
    fail with method errors only and the handler returns, the group entry
    point does what the specification asks of the pass: it returns normally
    and leaves the zone and the trace that result from resolving each
    member in order, querying the ownership and invoking the handler exactly
    when the name differs from the name carried from the member before
    (empty at the start), and carrying on from the empty name with no owner
    after a failed resolution or query.  A failure of any other class is not
    contained: when the resolution or the query of a member throws it, the
    pass ends there and the fault leaves the entry point. *)
Theorem NameOwner_init_dedups (self : NameOwner.NameOwner Zone)
    (group : Group) (w : World Zone (string * bool)) :
  ((forall p i z, onlyMethodErrors (fst (getService p i z))) ->
   (forall n z, onlyMethodErrors (fst (callNameHasOwner n z))) ->
   (forall a z, fst (NameOwner._handler self a z) = Done tt) ->
   let spec :=
     dedupSpec (NameOwner._handler self) ("", false) group (zone w) in
   NameOwner.init self group w
   = (Done tt, mkWorld (fst spec) (trace w ++ snd spec))) /\
  (forall g1 m rest st1 w1 f z,
     group = g1 ++ m :: rest ->
     NameOwner.forMembers self ("", false) g1 w = (Done st1, w1) ->
     caughtAsMethodError f = false ->
     (getService (pathPos m) (intfPos m) (zone w1) = (Threw f, z) ->
      NameOwner.init self group w
      = (Threw f,
         mkWorld z
           (trace w1 ++ [GetService (pathPos m) (intfPos m) (Threw f)]))) /\
     (forall n z1,
        getService (pathPos m) (intfPos m) (zone w1) = (Done n, z1) ->
        fst st1 <> n ->
        callNameHasOwner n z1 = (Threw f, z) ->
        NameOwner.init self group w
        = (Threw f,
           mkWorld z
             (trace w1 ++ [GetService (pathPos m) (intfPos m) (Done n);
                           NameHasOwner n (Threw f)])))).
Proof.
  split.
  - intros Hs Hq Hh. cbv zeta. unfold NameOwner.init, bind, ret.
    destruct (NameOwner_members_run self group Hs Hq Hh ("", false) w)
      as [st' ->]. done.
  - intros g1 m rest st1 w1 f z -> H1 Hf. split.
    + intros Hres.
      apply (NameOwner_escape self g1 rest m w w1 st1
               (Threw f, mkWorld z _) f H1).
      unfold NameOwner.forMember, tryCatch, bind, invoke, onZone. simpl.
      rewrite Hres. simpl. by rewrite Hf.
    + intros n z1 Hres Hn Hq.
      apply (NameOwner_escape self g1 rest m w w1 st1
               (Threw f, mkWorld z _) f H1).
      unfold NameOwner.forMember, tryCatch, bind, invoke, onZone. simpl.
      rewrite Hres. simpl. rewrite bool_decide_eq_true_2 by done. simpl.
      rewrite Hq. simpl. rewrite Hf. by rewrite <- app_assoc.
Qed.

End NameOwnerFacts.

(** ** The statements at work on the small zone *)

Lemma demoGetProperty_onlyBusErrors p i pr z :
  onlyBusErrors (fst (demoGetProperty p i pr z)).
Proof. unfold demoGetProperty. by destruct (assoc _ _). Defined.

Lemma demoGetService_onlyMethodErrors p i z :
  onlyMethodErrors (fst (demoGetService p i z)).
Proof. unfold demoGetService. by destruct (assoc _ _). Defined.


Example Properties_signal_live_trace :
  trace (snd (Properties.signal (api := skipMismatch) ambientHigh
                                (Some highTripped) demoWorld))
  = [Invoked true].
Proof. vm_compute. reflexivity. Qed.

Example Properties_signal_other_interface :
  Properties.signal (api := skipMismatch)
    (propertiesChanged ambient "xyz.openbmc_project.Sensor.Threshold.Warning"
                       "CriticalAlarmHigh" storeValue)
    (Some highTripped) demoWorld
  = (Done tt, demoWorld).
Proof. vm_compute. reflexivity. Qed.

Example Properties_signal_missing_property :
  trace (snd (Properties.signal (api := skipMismatch)
                (propertiesChanged ambient critical "WarningAlarmHigh"
                                   storeValue)
                (Some highTripped) demoWorld))
  = [LogErr "Unable to find property on interface" "WarningAlarmHigh"
            critical ambient].
Proof. vm_compute. reflexivity. Qed.

Lemma Properties_signal_relays_library_read_witness :
  let r := Properties.signal (api := skipMismatch) ambientHigh
                             (Some highAsNumber) demoWorld in
  (exists v, readVariant (PropertyAPI := skipMismatch) (WInt64 1) = Done v /\
             r = invoke storeValue v demoWorld) /\
  errorLogs (trace (snd r)) = [] /\
  ~ (fst r = Done tt /\ handlerCalls (trace (snd r)) = []).
Proof.
  exact (Properties_signal_relays_library_read (api := skipMismatch)
           ambientHigh highAsNumber demoWorld (WInt64 1) eq_refl eq_refl).
Defined.

(** C5 as stated fails.  The filter property arrives as a 64-bit integer
    where a boolean is expected.  With a library that skips the variant,
    the handler is invoked with [false] and nothing is reported; with a
    library that throws, the fault leaves the functor and nothing is
    reported either. *)
Lemma Properties_signal_mismatch_not_contained :
  let skipped := Properties.signal (api := skipMismatch) ambientHigh
                                   (Some highAsNumber) demoWorld in
  let thrown := Properties.signal (api := throwMismatch) ambientHigh
                                  (Some highAsNumber) demoWorld in
  (fst skipped = Done tt /\
   handlerCalls (trace (snd skipped)) = [false] /\
   received (zone (snd skipped)) = [false] /\
   errorLogs (trace (snd skipped)) = []) /\
  (fst thrown = Threw SdBusError /\
   handlerCalls (trace (snd thrown)) = [] /\
   errorLogs (trace (snd thrown)) = []).
Proof. vm_compute. repeat split. Qed.

Lemma getProperty_filter_is_not_a_wildcard_witness :
  Properties.signal (api := skipMismatch) (getProperty storeValue)
                    (Some highTripped) demoWorld
  = (Done tt, demoWorld).
Proof.
  destruct (getProperty_filter_is_not_a_wildcard (api := skipMismatch)
              storeValue highTripped demoWorld "" "" "" []) as [H _].
  apply H. discriminate.
Defined.

(** C7 as stated fails: the functor built from a handler alone does not
    invoke its handler for a live message of a named interface. *)
Lemma getProperty_ignores_named_interface :
  let r := Properties.signal (api := skipMismatch) (getProperty storeValue)
                             (Some highTripped) demoWorld in
  pcInterface highTripped <> "" /\
  handlerCalls (trace (snd r)) = [] /\
  received (zone (snd r)) = [].
Proof. split; [discriminate|]. vm_compute. by split. Qed.

Example getProperty_unnamed_interface :
  handlerCalls
    (trace (snd (Properties.signal (api := skipMismatch)
                   (getProperty storeValue)
                   (Some (mkPropertiesChanged "" [("", WBool true)] []))
                   demoWorld)))
  = [true].
Proof. vm_compute. reflexivity. Qed.

Example Properties_signal_null_reads_filter :
  trace (snd (Properties.signal (api := skipMismatch) ambientHigh None
                                demoWorld))
  = [GetPropertyByName ambient critical "CriticalAlarmHigh" (Done true);
     Invoked true].
Proof. vm_compute. reflexivity. Qed.

Example Properties_signal_null_swallows :
  Properties.signal (api := skipMismatch)
    (propertiesChanged inlet critical "CriticalAlarmHigh" storeValue)
    None demoWorld
  = (Done tt,
     mkWorld demoZone
       [GetPropertyByName inlet critical "CriticalAlarmHigh"
                          (Threw DBusError)]).
Proof. vm_compute. reflexivity. Qed.

Lemma Properties_init_enumerates_witness :
  Properties.init (api := skipMismatch) ambientHigh demoGroup demoWorld
  = (Done tt,
     mkWorld
       (mkDemoZone (cached demoZone) (serviceOf demoZone) (owned demoZone)
                   [true; false])
       [GetPropertyByName ambient critical "CriticalAlarmHigh" (Done true);
        Invoked true;
        GetPropertyByName inlet critical "CriticalAlarmHigh" (Threw DBusError);
        GetPropertyByName outlet critical "CriticalAlarmHigh" (Done false);
        Invoked false]).
Proof.
  exact (Properties_init_enumerates (api := skipMismatch) ambientHigh
           demoGroup demoWorld
           (fun p i pr z => demoGetProperty_onlyBusErrors p i pr z)
           (fun v z => I)).
Defined.

Example Properties_init_trace :
  trace (snd (Properties.init (api := skipMismatch) ambientHigh demoGroup
                              demoWorld))
  = [GetPropertyByName ambient critical "CriticalAlarmHigh" (Done true);
     Invoked true;
     GetPropertyByName inlet critical "CriticalAlarmHigh" (Threw DBusError);
     GetPropertyByName outlet critical "CriticalAlarmHigh" (Done false);
     Invoked false].
Proof. vm_compute. reflexivity. Qed.


Example InterfaceAdded_other_path :
  InterfaceAdded.signal (api := skipMismatch)
    (interfacesAdded inlet critical "CriticalAlarmHigh" storeValue)
    (Some ambientAnnounced) demoWorld
  = (Done tt, demoWorld).
Proof. vm_compute. reflexivity. Qed.

Example InterfaceAdded_missing_property :
  InterfaceAdded.signal (api := skipMismatch)
    (interfacesAdded ambient critical "CriticalAlarmLow" storeValue)
    (Some ambientAnnounced) demoWorld
  = (Done tt, demoWorld).
Proof. vm_compute. reflexivity. Qed.

Lemma NameOwner_init_dedups_witness :
  NameOwner.init (bus := demoBus) (nameHasOwner storeOwner) demoGroup
                 demoWorld
  = (Done tt,
     mkWorld
       (mkDemoZone (cached demoZone) (serviceOf demoZone) (owned demoZone)
                   [true; false])
       [GetService ambient critical (Done "xyz.openbmc_project.Hwmon-1");
        NameHasOwner "xyz.openbmc_project.Hwmon-1" (Done true);
        Invoked ("xyz.openbmc_project.Hwmon-1", true);
        GetService inlet critical (Done "xyz.openbmc_project.Hwmon-1");
        GetService outlet critical (Done "xyz.openbmc_project.Hwmon-2");
        NameHasOwner "xyz.openbmc_project.Hwmon-2" (Done false);
        Invoked ("xyz.openbmc_project.Hwmon-2", false)]) /\
  NameOwner.init (bus := flakyBus) (nameHasOwner storeOwner)
                 ([ambientMember] ++ inletMember :: [outletMember]) demoWorld
  = (Threw SdBusError,
     mkWorld (snd (storeValue true demoZone))
       [GetService ambient critical (Done "xyz.openbmc_project.Hwmon-1");
        NameHasOwner "xyz.openbmc_project.Hwmon-1" (Done true);
        Invoked ("xyz.openbmc_project.Hwmon-1", true);
        GetService inlet critical (Threw SdBusError)]).
Proof.
  split.
  - exact (proj1 (NameOwner_init_dedups (bus := demoBus)
                    (nameHasOwner storeOwner) demoGroup demoWorld)
             (fun p i z => demoGetService_onlyMethodErrors p i z)
             (fun n z => I) (fun a z => eq_refl)).
  - destruct (proj2 (NameOwner_init_dedups (bus := flakyBus)
                       (nameHasOwner storeOwner)
                       ([ambientMember] ++ inletMember :: [outletMember])
                       demoWorld)
                [ambientMember] inletMember [outletMember]
                ("xyz.openbmc_project.Hwmon-1", true)
                (snd (NameOwner.forMembers (bus := flakyBus)
                        (nameHasOwner storeOwner) ("", false)
                        [ambientMember] demoWorld))
                SdBusError (snd (storeValue true demoZone))
                eq_refl) as [H _].
    + vm_compute. reflexivity.
    + reflexivity.
    + apply H. vm_compute. reflexivity.
Defined.

(** C9 as stated fails for a failure that is not a method error: on a bus
    where resolving the inlet sensor throws the library's own bus error,
    the fault leaves the group entry point and the outlet sensor after it
    is never resolved. *)
Lemma NameOwner_init_failure_escapes :
  let r := NameOwner.init (bus := flakyBus) (nameHasOwner storeOwner)
                          [ambientMember; inletMember; outletMember]
                          demoWorld in
  fst (getService (BusAPI := flakyBus) inlet critical demoZone)
  = Threw SdBusError /\
  fst r = Threw SdBusError /\
  trace (snd r)
  = [GetService ambient critical (Done "xyz.openbmc_project.Hwmon-1");
     NameHasOwner "xyz.openbmc_project.Hwmon-1" (Done true);
     Invoked ("xyz.openbmc_project.Hwmon-1", true);
     GetService inlet critical (Threw SdBusError)].
Proof. vm_compute. repeat split. Qed.

Example NameOwner_init_trace :
  trace (snd (NameOwner.init (bus := demoBus) (nameHasOwner ignoreOwner)
                ((ambient, critical, "CriticalAlarmHigh") ::
                 (inlet, critical, "CriticalAlarmHigh") ::
                 ("/missing", critical, "CriticalAlarmHigh") ::
                 (inlet, critical, "CriticalAlarmHigh") ::
                 (outlet, critical, "CriticalAlarmHigh") :: [])
                demoWorld))
  = [GetService ambient critical (Done "xyz.openbmc_project.Hwmon-1");
     NameHasOwner "xyz.openbmc_project.Hwmon-1" (Done true);
     Invoked ("xyz.openbmc_project.Hwmon-1", true);
     GetService inlet critical (Done "xyz.openbmc_project.Hwmon-1");
     GetService "/missing" critical (Threw DBusMethodError);
     GetService inlet critical (Done "xyz.openbmc_project.Hwmon-1");
     NameHasOwner "xyz.openbmc_project.Hwmon-1" (Done true);
     Invoked ("xyz.openbmc_project.Hwmon-1", true);
     GetService outlet critical (Done "xyz.openbmc_project.Hwmon-2");
     NameHasOwner "xyz.openbmc_project.Hwmon-2" (Done false);
     Invoked ("xyz.openbmc_project.Hwmon-2", false)].
Proof. vm_compute. reflexivity. Qed.

End FunctorSpec.

(* ===================================================================== *)
(** * More properties of the match-filter functors *)
(* ===================================================================== *)

Module FunctorMoreSpec.
Import Functor FunctorMore FunctorSpec.

(** ** Sequencing *)

Lemma for_each_app {Zone Arg A} (l1 l2 : list A) (f : A -> M Zone Arg unit)
    (w : World Zone Arg) :
  for_each (l1 ++ l2) f w =
    match for_each l1 f w with
    | (Done _, w1) => for_each l2 f w1
    | (Threw e, w1) => (Threw e, w1)
    end.
Proof.
  revert w. induction l1 as [|x l1 IH]; intros w; simpl; [done|].
  unfold bind. destruct (f x w) as [[[]|e] w1]; [apply IH|done].
Qed.

Section PropertyMore.
Context {Zone T : Type} {api : PropertyAPI Zone T}.

(** X3.  Enumerating a group made of two parts is enumerating the first and,
    unless that threw, the second from where the first left the zone. *)
Theorem Properties_init_app (self : Properties.Properties Zone T)
    (g1 g2 : Group) (w : World Zone T) :
  Properties.init self (g1 ++ g2) w =
    match Properties.init self g1 w with
    | (Done _, w1) => Properties.init self g2 w1
    | (Threw e, w1) => (Threw e, w1)
    end.
Proof. apply for_each_app. Qed.

(** X4.  A read that throws anything but a bus error ends the enumeration: the
    fault leaves [operator()(zone, group)], the handler is not invoked for
    that member, and the members after it are not even read. *)
Theorem Properties_init_stops_at_uncaught_fault
    (self : Properties.Properties Zone T) (g1 rest : Group) (m : Member)
    (w w1 : World Zone T) (f : Fault) (z : Zone) :
  Properties.init self g1 w = (Done tt, w1) ->
  getPropertyByName (pathPos m) (intfPos m) (propPos m) (zone w1)
  = (Threw f, z) ->
  caughtAsBusError f = false ->
  Properties.init self (g1 ++ m :: rest) w
  = (Threw f,
     mkWorld z (trace w1 ++
                [GetPropertyByName (pathPos m) (intfPos m) (propPos m)
                                   (Threw f)])).
Proof.
  intros H1 Hread Hf. unfold Properties.init in *.
  rewrite for_each_app, H1. simpl.
  unfold bind, Properties.forMember, tryCatch, bind, invoke, onZone. simpl.
  rewrite Hread. simpl. by rewrite Hf.
Qed.

(** X5.  What the handler throws.  On a live message nothing stands between the
    handler and the caller: the call ends as the handler ends.  In the
    group enumeration the handler runs inside the try block of the read, so
    a bus error thrown by the handler is swallowed like a failed read. *)
Theorem Properties_handler_faults (self : Properties.Properties Zone T)
    (m : PropertiesChangedMsg) (mem : Member) (w : World Zone T)
    (props : gmap string T) (v : T) (z1 : Zone) :
  (pcInterface m = Properties._iface self ->
   readDict (pcChanged m) = Done props ->
   props !! Properties._property self = Some v ->
   fst (Properties.signal self (Some m) w)
   = fst (Properties._handler self v (zone w))) /\
  (getPropertyByName (pathPos mem) (intfPos mem) (propPos mem) (zone w)
   = (Done v, z1) ->
   fst (Properties.forMember self mem w)
   = match fst (Properties._handler self v z1) with
     | Done _ => Done tt
     | Threw f => if caughtAsBusError f then Done tt else Threw f
     end /\
   handlerCalls (trace (snd (Properties.forMember self mem w)))
   = handlerCalls (trace w) ++ [v]).
Proof.
  split.
  - intros Hi Hread Hp.
    rewrite (signal_interface_matches self m w props Hi Hread), Hp.
    apply invoke_outcome.
  - intros Hread.
    unfold Properties.forMember, tryCatch, bind, invoke, onZone, ret. simpl.
    rewrite Hread. simpl.
    destruct (Properties._handler self v z1) as [[[]|f] z2]; simpl.
    + by rewrite !handlerCalls_app, app_nil_r.
    + destruct (caughtAsBusError f); simpl;
        by rewrite !handlerCalls_app, app_nil_r.
Qed.

(** X6.  A live message is never matched against the path of the functor, and
    its list of invalidated properties is never looked at: two functors
    that differ in their path alone, given two messages that differ in that
    list alone, end alike, leave the zone alike and call the handler
    alike. *)
Theorem Properties_signal_ignores_path
    (self self' : Properties.Properties Zone T)
    (m m' : PropertiesChangedMsg) (w : World Zone T) :
  Properties._iface self' = Properties._iface self ->
  Properties._property self' = Properties._property self ->
  Properties._handler self' = Properties._handler self ->
  pcInterface m' = pcInterface m ->
  pcChanged m' = pcChanged m ->
  let r := Properties.signal self (Some m) w in
  let r' := Properties.signal self' (Some m') w in
  fst r' = fst r /\
  zone (snd r') = zone (snd r) /\
  handlerCalls (trace (snd r')) = handlerCalls (trace (snd r)).
Proof.
  intros Hi Hp Hh Hmi Hmc. cbv zeta. unfold Properties.signal.
  rewrite Hi, Hp, Hh, Hmi, Hmc.
  case_bool_decide; [done|].
  unfold bind, liftOutcome.
  destruct (readDict (pcChanged m)) as [props|f]; [|done].
  destruct (props !! Properties._property self); [done|].
  simpl. by rewrite !handlerCalls_app.
Qed.

End PropertyMore.

(** ** InterfaceRemoved *)


(** ** NameOwner *)

(** X2.  Every live NameOwnerChanged message reaches the handler, whatever the
    name: there is no filter.  The handler is run on the zone with the name
    and whether the new owner is non-empty; the call ends as the handler
    ends and leaves the zone the handler leaves.  The old owner plays no
    part. *)
Theorem NameOwner_signal_forwards_every_change {Zone}
    (self : NameOwner.NameOwner Zone) (name old old' new : string)
    (w : World Zone (string * bool)) :
  let a := (name, bool_decide (new <> "")) in
  let r := NameOwner.signal self (Some (mkNameOwnerChanged name old new)) w in
  fst r = fst (NameOwner._handler self a (zone w)) /\
  zone (snd r) = snd (NameOwner._handler self a (zone w)) /\
  trace (snd r) = trace w ++ [Invoked a] /\
  NameOwner.signal self (Some (mkNameOwnerChanged name old' new)) w = r.
Proof.
  cbv zeta. unfold NameOwner.signal. simpl.
  rewrite invoke_outcome, invoke_zone, invoke_trace.
  replace (negb (bool_decide (new = ""))) with (bool_decide (new <> ""))
    by (by repeat case_bool_decide).
  done.
Qed.

Section NameOwnerMore.
Context {Zone : Type} {bus : BusAPI Zone}.

Lemma forMembers_changes (svc : string -> string -> string)
    (own : string -> bool) (self : NameOwner.NameOwner Zone) (group : Group) :
  (forall p i z, getService p i z = (Done (svc p i), z)) ->
  (forall n z, callNameHasOwner n z = (Done (own n), z)) ->
  (forall a z, fst (NameOwner._handler self a z) = Done tt) ->
  forall st w,
    let calls :=
      (fun n => (n, own n)) <$> changes (fst st) (servicesOf svc group) in
    let r := NameOwner.forMembers self st group w in
    (exists st', fst r = Done st') /\
    handlerCalls (trace (snd r)) = handlerCalls (trace w) ++ calls /\
    zone (snd r)
    = foldl (fun z a => snd (NameOwner._handler self a z)) (zone w) calls.
Proof.
  intros Hs Hq Hh. cbv zeta.
  induction group as [|m rest IH]; intros st w; simpl.
  - split; [by eexists|]. by rewrite app_nil_r.
  - unfold bind, NameOwner.forMember, tryCatch, bind, invoke, onZone, ret.
    simpl. rewrite Hs. simpl. case_bool_decide as Hn; simpl.
    + rewrite Hq. simpl.
      set (n := svc (pathPos m) (intfPos m)).
      pose proof (Hh (n, own n) (zone w)) as Hd.
      destruct (NameOwner._handler self (n, own n) (zone w)) as [o z3].
      simpl in Hd. subst o. simpl.
      destruct (IH (n, own n)
                   {| zone := z3;
                      trace := ((trace w ++
                                 [GetService (pathPos m) (intfPos m)
                                    (Done n)]) ++
                                [NameHasOwner n (Done (own n))])
                               ++ [Invoked (n, own n)] |})
        as (He & Hc & Hz).
      split; [exact He|]. split.
      * rewrite Hc. simpl.
        rewrite !handlerCalls_app. simpl. by rewrite !app_nil_r, <- app_assoc.
      * rewrite Hz. done.
    + destruct (IH st {| zone := zone w;
                         trace := trace w ++
                                  [GetService (pathPos m) (intfPos m)
                                     (Done (svc (pathPos m) (intfPos m)))] |})
        as (He & Hc & Hz).
      split; [exact He|]. split.
      * rewrite Hc. simpl. rewrite !handlerCalls_app. simpl.
        by rewrite app_nil_r.
      * rewrite Hz. done.
Qed.

Lemma changes_constant (prev n : string) (names : list string) :
  names <> [] -> Forall (fun x => x = n) names ->
  changes prev names = if bool_decide (prev ≠ n) then [n] else [].
Proof.
  intros Hne Hall. revert prev Hne.
  induction Hall as [|x names -> Hall IH]; intros prev Hne; [done|].
  simpl. destruct names as [|y names].
  - simpl. by case_bool_decide.
  - case_bool_decide as Hp.
    + rewrite IH by done. case_bool_decide as Hn; [by destruct Hn|done].
    + rewrite IH by done. case_bool_decide as Hn; [by destruct Hp|done].
Qed.

(** X7.  On a bus that answers and whose answers depend on the question alone,
    the group pass of NameOwner calls the handler once for each member whose
    service differs from the service of the member before it (from the
    empty name for the first), in the order of the group, with the name and
    its ownership, and the zone it leaves is the zone these calls of the
    handler leave, one after the other.  So a service met again after
    another one is reported again. *)
Theorem NameOwner_init_reports_changes (svc : string -> string -> string)
    (own : string -> bool) (self : NameOwner.NameOwner Zone) (group : Group)
    (w : World Zone (string * bool)) :
  (forall p i z, getService p i z = (Done (svc p i), z)) ->
  (forall n z, callNameHasOwner n z = (Done (own n), z)) ->
  (forall a z, fst (NameOwner._handler self a z) = Done tt) ->
  let calls := (fun n => (n, own n)) <$> changes "" (servicesOf svc group) in
  let r := NameOwner.init self group w in
  fst r = Done tt /\
  handlerCalls (trace (snd r)) = handlerCalls (trace w) ++ calls /\
  zone (snd r)
  = foldl (fun z a => snd (NameOwner._handler self a z)) (zone w) calls.
Proof.
  intros Hs Hq Hh. cbv zeta. unfold NameOwner.init, bind, ret.
  destruct (forMembers_changes svc own self group Hs Hq Hh ("", false) w)
    as ([st' He] & Hc & Hz).
  destruct (NameOwner.forMembers self ("", false) group w) as [o w1].
  simpl in He, Hc, Hz. subst o. by simpl.
Qed.

(** X8.  When all members of a non-empty group live on one service, the handler
    is run exactly once for the whole group, on the zone as it was.  When
    that service name is empty, it is not run at all and the zone stays as
    it was: the pass starts from the empty name, so an empty name never
    counts as new. *)
Theorem NameOwner_init_one_service (svc : string -> string -> string)
    (own : string -> bool) (self : NameOwner.NameOwner Zone) (group : Group)
    (n : string) (w : World Zone (string * bool)) :
  (forall p i z, getService p i z = (Done (svc p i), z)) ->
  (forall n z, callNameHasOwner n z = (Done (own n), z)) ->
  (forall a z, fst (NameOwner._handler self a z) = Done tt) ->
  group <> [] ->
  Forall (fun m => svc (pathPos m) (intfPos m) = n) group ->
  let r := NameOwner.init self group w in
  fst r = Done tt /\
  handlerCalls (trace (snd r))
  = handlerCalls (trace w) ++
    (if bool_decide (n = "") then [] else [(n, own n)]) /\
  zone (snd r)
  = if bool_decide (n = "") then zone w
    else snd (NameOwner._handler self (n, own n) (zone w)).
Proof.
  intros Hs Hq Hh Hne Hall. cbv zeta. unfold NameOwner.init, bind, ret.
  destruct (forMembers_changes svc own self group Hs Hq Hh ("", false) w)
    as ([st' He] & Hc & Hz).
  destruct (NameOwner.forMembers self ("", false) group w) as [o w1].
  simpl in He, Hc, Hz. subst o. simpl. rewrite Hc, Hz.
  rewrite (changes_constant "" n).
  - simpl. repeat case_bool_decide; done.
  - unfold servicesOf. by destruct group.
  - unfold servicesOf. by apply Forall_fmap.
Qed.

(** X9.  The group pass of NameOwner catches method errors only.  When the
    resolution of a member throws anything else, a bus error of the library
    included, the fault leaves [operator()(zone, group)] and the members
    after it are not resolved. *)
Theorem NameOwner_init_stops_at_uncaught_fault
    (self : NameOwner.NameOwner Zone) (g1 rest : Group) (m : Member)
    (w w1 : World Zone (string * bool)) (st1 : string * bool)
    (f : Fault) (z : Zone) :
  NameOwner.forMembers self ("", false) g1 w = (Done st1, w1) ->
  getService (pathPos m) (intfPos m) (zone w1) = (Threw f, z) ->
  caughtAsMethodError f = false ->
  NameOwner.init self (g1 ++ m :: rest) w
  = (Threw f,
     mkWorld z (trace w1 ++ [GetService (pathPos m) (intfPos m) (Threw f)])).
Proof.
  intros H1 Hs Hf. unfold NameOwner.init, bind.
  rewrite forMembers_app, H1. simpl.
  unfold bind, NameOwner.forMember, tryCatch, bind, invoke, onZone. simpl.
  rewrite Hs. simpl. by rewrite Hf.
Qed.

End NameOwnerMore.

(** ** The statements at work on the small zone *)

Lemma Properties_init_stops_at_uncaught_fault_witness :
  Properties.init (api := brittle) ambientHigh
                  ([ambientMember] ++ inletMember :: [outletMember])
                  demoWorld
  = (Threw (OtherFault "std::out_of_range"),
     mkWorld (snd (storeValue true demoZone))
       [GetPropertyByName ambient critical "CriticalAlarmHigh" (Done true);
        Invoked true;
        GetPropertyByName inlet critical "CriticalAlarmHigh"
                          (Threw (OtherFault "std::out_of_range"))]).
Proof.
  apply (Properties_init_stops_at_uncaught_fault (api := brittle)
           ambientHigh [ambientMember] [outletMember] inletMember demoWorld
           (snd (Properties.init (api := brittle) ambientHigh
                                 [ambientMember] demoWorld))).
  - vm_compute. reflexivity.
  - vm_compute. reflexivity.
  - reflexivity.
Defined.

Lemma Properties_handler_faults_witness :
  fst (Properties.signal (api := skipMismatch)
         (propertiesChanged ambient critical "CriticalAlarmHigh"
                            (refuse SdBusError))
         (Some highTripped) demoWorld)
  = Threw SdBusError /\
  fst (Properties.forMember (api := skipMismatch)
         (propertiesChanged ambient critical "CriticalAlarmHigh"
                            (refuse SdBusError))
         ambientMember demoWorld)
  = Done tt.
Proof.
  destruct (Properties_handler_faults (api := skipMismatch)
              (propertiesChanged ambient critical "CriticalAlarmHigh"
                                 (refuse SdBusError))
              highTripped ambientMember demoWorld
              (<["CriticalAlarmLow" := false]>
                 (<["CriticalAlarmHigh" := true]> ∅))
              true demoZone) as [H1 H2].
  split.
  - apply H1; reflexivity.
  - apply H2. reflexivity.
Defined.

Lemma Properties_signal_ignores_path_witness :
  let r := Properties.signal (api := skipMismatch) ambientHigh
                             (Some highTripped) demoWorld in
  let r' := Properties.signal (api := skipMismatch)
              (propertiesChanged inlet critical "CriticalAlarmHigh"
                                 storeValue)
              (Some (mkPropertiesChanged critical (pcChanged highTripped)
                                         ["CriticalAlarmHigh"]))
              demoWorld in
  fst r' = fst r /\
  zone (snd r') = zone (snd r) /\
  handlerCalls (trace (snd r')) = handlerCalls (trace (snd r)).
Proof.
  apply (Properties_signal_ignores_path (api := skipMismatch)); reflexivity.
Defined.


Lemma NameOwner_init_reports_changes_witness :
  let r := NameOwner.init (bus := steadyBus demoSvc demoOwn)
             (nameHasOwner storeOwner)
             [ambientMember; inletMember; outletMember; ambientMember]
             demoWorld in
  fst r = Done tt /\
  handlerCalls (trace (snd r))
  = [("xyz.openbmc_project.Hwmon-1", true);
     ("xyz.openbmc_project.Hwmon-2", false);
     ("xyz.openbmc_project.Hwmon-1", true)] /\
  zone (snd r)
  = mkDemoZone (cached demoZone) (serviceOf demoZone) (owned demoZone)
               [true; false; true].
Proof.
  apply (NameOwner_init_reports_changes (bus := steadyBus demoSvc demoOwn)
           demoSvc demoOwn (nameHasOwner storeOwner)
           [ambientMember; inletMember; outletMember; ambientMember]
           demoWorld); reflexivity.
Defined.

Lemma NameOwner_init_one_service_witness :
  let r := NameOwner.init (bus := steadyBus demoSvc demoOwn)
             (nameHasOwner storeOwner)
             [ambientMember; inletMember; ambientMember] demoWorld in
  fst r = Done tt /\
  handlerCalls (trace (snd r)) = [("xyz.openbmc_project.Hwmon-1", true)] /\
  zone (snd r)
  = mkDemoZone (cached demoZone) (serviceOf demoZone) (owned demoZone)
               [true].
Proof.
  apply (NameOwner_init_one_service (bus := steadyBus demoSvc demoOwn)
           demoSvc demoOwn (nameHasOwner storeOwner)
           [ambientMember; inletMember; ambientMember]
           "xyz.openbmc_project.Hwmon-1" demoWorld); try reflexivity.
  - discriminate.
  - repeat constructor.
Defined.

Lemma NameOwner_init_stops_at_uncaught_fault_witness :
  NameOwner.init (bus := flakyBus) (nameHasOwner ignoreOwner)
                 ([ambientMember] ++ inletMember :: [outletMember]) demoWorld
  = (Threw SdBusError,
     mkWorld demoZone
       [GetService ambient critical (Done "xyz.openbmc_project.Hwmon-1");
        NameHasOwner "xyz.openbmc_project.Hwmon-1" (Done true);
        Invoked ("xyz.openbmc_project.Hwmon-1", true);
        GetService inlet critical (Threw SdBusError)]).
Proof.
  apply (NameOwner_init_stops_at_uncaught_fault (bus := flakyBus)
           (nameHasOwner ignoreOwner) [ambientMember] [outletMember]
           inletMember demoWorld
           (snd (NameOwner.forMembers (bus := flakyBus)
                   (nameHasOwner ignoreOwner) ("", false) [ambientMember]
                   demoWorld))
           ("xyz.openbmc_project.Hwmon-1", true)).
  - vm_compute. reflexivity.
  - vm_compute. reflexivity.
  - reflexivity.
Defined.

End FunctorMoreSpec.

(* ===================================================================== *)
(** * Properties of the fanctl command-line tool *)
(* ===================================================================== *)

Module FanCtlSpec.
Import FanCtl.

(** ** Strings *)

Lemma append_nil (b : string) : "" +:+ b = b.
Proof. reflexivity. Qed.

Lemma append_cons (x : ascii) (a b : string) :
  String x a +:+ b = String x (a +:+ b).
Proof. reflexivity. Qed.

Lemma length_append (a b : string) :
  String.length (a +:+ b) = String.length a + String.length b.
Proof.
  induction a as [|x a IH]; rewrite ?append_nil, ?append_cons; simpl;
    [done|]. by rewrite IH.
Qed.

Lemma skip_append (a b : string) : skip (String.length a) (a +:+ b) = b.
Proof.
  induction a as [|x a IH]; rewrite ?append_nil, ?append_cons; simpl;
    [by destruct b|done].
Qed.

Lemma first_append (a b : string) : first (String.length a) (a +:+ b) = a.
Proof.
  induction a as [|x a IH]; rewrite ?append_nil, ?append_cons; simpl;
    [by destruct b|]. by rewrite IH.
Qed.

Lemma append_assoc (a b c : string) : (a +:+ b) +:+ c = a +:+ (b +:+ c).
Proof.
  induction a as [|x a IH]; rewrite ?append_nil, ?append_cons; [done|].
  by f_equal.
Qed.

Lemma rfind_lt (c : ascii) (s : string) (i : nat) :
  rfind c s = Some i -> i < String.length s.
Proof.
  revert i. induction s as [|x s IH]; intros i; simpl; [done|].
  destruct (rfind c s) as [j|].
  - intros [= <-]. specialize (IH j eq_refl). lia.
  - case_decide; [|done]. intros [= <-]. lia.
Qed.

Lemma rfind_split (c : ascii) (s : string) (i : nat) :
  rfind c s = Some i ->
  s = first i s +:+ String c (skip (S i) s) /\ rfind c (skip (S i) s) = None.
Proof.
  revert i. induction s as [|x s IH]; intros i; simpl; [done|].
  destruct (rfind c s) as [j|] eqn:E.
  - intros [= <-]. destruct (IH j eq_refl) as [H1 H2].
    split; [|exact H2]. cbn [first]. rewrite append_cons. f_equal. exact H1.
  - case_decide as Hx; [|done]. intros [= <-]. subst x.
    cbn [first]. rewrite append_nil. split; [by destruct s|by destruct s].
Qed.

Lemma rfind_append (c : ascii) (a b : string) :
  rfind c (a +:+ b) =
    match rfind c b with
    | Some i => Some (String.length a + i)
    | None => rfind c a
    end.
Proof.
  induction a as [|x a IH]; rewrite ?append_nil, ?append_cons; simpl.
  - by destruct (rfind c b).
  - rewrite IH. by destruct (rfind c b).
Qed.

Lemma prefix_append (needle rest : string) :
  String.prefix needle (needle +:+ rest) = true.
Proof.
  induction needle as [|x needle IH]; rewrite ?append_nil, ?append_cons;
    simpl; [by destruct rest|].
  by destruct (ascii_dec x x).
Qed.

Lemma find_here (needle hay : string) :
  String.prefix needle hay = true -> find needle hay = Some 0.
Proof. intros H. destruct hay; cbn [find]; by rewrite H. Qed.

Lemma find_append (needle a b : string) :
  find needle (a +:+ needle +:+ b) <> None.
Proof.
  induction a as [|x a IH]; rewrite ?append_nil, ?append_cons.
  - by rewrite find_here by apply prefix_append.
  - cbn [find].
    destruct (String.prefix needle (String x (a +:+ needle +:+ b))); [done|].
    by destruct (find needle (a +:+ needle +:+ b)).
Qed.

(** ** justFanName *)

Lemma justFanName_lastToken (path : string) :
  justFanName path = Ok (lastToken path).
Proof.
  unfold justFanName, lastToken.
  destruct (rfind "/" path) as [i|] eqn:E; [|done].
  pose proof (rfind_lt _ _ _ E). rewrite decide_True by done.
  unfold substr. rewrite decide_True by lia. done.
Qed.

(** X10.  The bounds check of [justFanName] holds for every path: it never
    throws.  What it returns has no slash in it; it is empty when the path
    has no slash, and otherwise the path is what comes before its last
    slash, that slash, and what is returned. *)
Theorem justFanName_is_last_token (path : string) :
  exists name,
    justFanName path = Ok name /\
    rfind "/" name = None /\
    match rfind "/" path with
    | Some i => path = first i path +:+ "/" +:+ name
    | None => name = ""
    end.
Proof.
  exists (lastToken path). split; [apply justFanName_lastToken|].
  unfold lastToken. destruct (rfind "/" path) as [i|] eqn:E; [|done].
  destruct (rfind_split _ _ _ E) as [H1 H2]. done.
Qed.

Lemma lastToken_join (dir name : string) :
  rfind "/" name = None -> lastToken (dir +:+ "/" +:+ name) = name.
Proof.
  intros Hn. unfold lastToken. rewrite rfind_append.
  assert (rfind "/" ("/" +:+ name) = Some 0) as ->.
  { change ("/" +:+ name) with (String "/" name). simpl. by rewrite Hn. }
  replace (dir +:+ "/" +:+ name) with ((dir +:+ "/") +:+ name)
    by apply append_assoc.
  replace (S (String.length dir + 0)) with (String.length (dir +:+ "/"))
    by (rewrite length_append; simpl; lia).
  apply skip_append.
Qed.

(** X11.  Joining a directory and a name without slash and asking for the fan
    name gives the name back, whatever the directory. *)
Theorem justFanName_join (dir name : string) :
  rfind "/" name = None ->
  justFanName (dir +:+ "/" +:+ name) = Ok name.
Proof.
  intros Hn. rewrite justFanName_lastToken. f_equal.
  by apply lastToken_join.
Qed.

(** ** Fan names *)

Lemma fanOf_stem (path : string) : fanOf path = Ok (stem (lastToken path)).
Proof.
  unfold fanOf. rewrite justFanName_lastToken. simpl.
  unfold substr. rewrite decide_True by lia. unfold stem.
  by destruct (rfind "_" (lastToken path)).
Qed.

Lemma rotor_path_fan (dir name rotor : string) :
  rfind "/" name = None ->
  rfind "/" rotor = None ->
  rfind "_" rotor = None ->
  let path := dir +:+ "/" +:+ name +:+ "_" +:+ rotor in
  fanOf path = Ok name /\ files false name path = true.
Proof.
  intros Hn Hr Hu. cbv zeta. split.
  - rewrite fanOf_stem. f_equal.
    rewrite lastToken_join.
    + unfold stem. rewrite rfind_append.
      assert (rfind "_" ("_" +:+ rotor) = Some 0) as ->.
      { change ("_" +:+ rotor) with (String "_" rotor). simpl.
        by rewrite Hu. }
      rewrite Nat.add_0_r. apply first_append.
    + rewrite rfind_append.
      assert (rfind "/" ("_" +:+ rotor) = None) as ->; [|done].
      change ("_" +:+ rotor) with (String "_" rotor). simpl. by rewrite Hr.
  - unfold files. apply bool_decide_eq_true.
    replace (dir +:+ "/" +:+ name +:+ "_" +:+ rotor)
      with ((dir +:+ "/") +:+ (name +:+ "_") +:+ rotor).
    + apply find_append.
    + by rewrite !append_assoc.
Qed.

(** X12.  A control path that ends in a fan name, an underscore and a rotor
    suffix gives that fan name, however many underscores the name itself
    has; and the rule that files tach sensors under a fan files this very
    path under the fan it gave. *)
Theorem fanOf_rotor_path (dir name rotor : string) :
  rfind "/" name = None ->
  rfind "/" rotor = None ->
  rfind "_" rotor = None ->
  let path := dir +:+ "/" +:+ name +:+ "_" +:+ rotor in
  fanOf path = Ok name /\ files false name path = true.
Proof. apply rotor_path_fan. Qed.

(** ** getPathsFromIface *)

Lemma entries_pushBack dest fan path fan' :
  entries (pushBack dest fan path) fan' =
    if bool_decide (fan = fan') then entries dest fan ++ [path]
    else entries dest fan'.
Proof.
  unfold entries, pushBack. case_bool_decide as H.
  - subst. by rewrite lookup_insert_eq.
  - by rewrite lookup_insert_ne.
Qed.

Lemma tidy_pushBack dest fan path : tidy dest -> tidy (pushBack dest fan path).
Proof.
  intros Ht fan'. unfold pushBack.
  destruct (decide (fan = fan')) as [<-|Hne].
  - rewrite lookup_insert_eq. intros [= H].
    by destruct (default [] (dest !! fan)).
  - rewrite lookup_insert_ne by done. apply Ht.
Qed.

Lemma forFan_files shortPath path dest fan :
  forFan shortPath path dest fan =
    Ok (if files shortPath fan path then pushBack dest fan path else dest).
Proof.
  unfold forFan, files. destruct shortPath.
  - rewrite justFanName_lastToken. simpl. by case_bool_decide.
  - by case_bool_decide.
Qed.

Lemma forFans_run shortPath path fans :
  forall dest,
  exists dest',
    foldM (forFan shortPath path) dest fans = Ok dest' /\
    (tidy dest -> tidy dest') /\
    forall fan,
      entries dest' fan =
        entries dest fan ++
        (if files shortPath fan path then replicate (copies fan fans) path
         else []).
Proof.
  induction fans as [|f fans IH]; intros dest; simpl.
  - exists dest. split; [done|]. split; [done|]. intros fan.
    by destruct (files shortPath fan path); rewrite app_nil_r.
  - rewrite forFan_files. simpl.
    destruct (IH (if files shortPath f path then pushBack dest f path
                  else dest)) as [dest' [Hrun [Ht He]]].
    exists dest'. split; [exact Hrun|]. split.
    + intros Hd. apply Ht. destruct (files shortPath f path); [|done].
      by apply tidy_pushBack.
    + intros fan. rewrite He.
      destruct (files shortPath f path) eqn:Hf.
      * rewrite entries_pushBack. case_bool_decide as Hff.
        -- subst f. rewrite Hf. simpl. by rewrite <- app_assoc.
        -- simpl. done.
      * case_bool_decide as Hff; [|done]. subst f. by rewrite Hf.
Qed.

Lemma forPaths_run shortPath fans subtree :
  forall dest,
  exists dest',
    foldM (fun d p => foldM (forFan shortPath p) d fans) dest subtree
    = Ok dest' /\
    (tidy dest -> tidy dest') /\
    forall fan,
      entries dest' fan = entries dest fan ++ filed shortPath fans subtree fan.
Proof.
  induction subtree as [|p subtree IH]; intros dest; simpl.
  - exists dest. split; [done|]. split; [done|]. intros fan.
    by rewrite app_nil_r.
  - destruct (forFans_run shortPath p fans dest) as [d1 [Hrun [Ht He]]].
    rewrite Hrun. simpl.
    destruct (IH d1) as [dest' [Hrun' [Ht' He']]].
    exists dest'. split; [exact Hrun'|]. split; [auto|].
    intros fan. rewrite He', He. unfold filed. simpl.
    by rewrite <- app_assoc.
Qed.

Lemma getPathsFromIface_run {bus : SDBusPlus} root iface fans shortPath
    subtree :
  getSubTreePathsRaw root iface 0 = Ok subtree ->
  exists dest,
    getPathsFromIface root iface fans shortPath = Ok dest /\
    tidy dest /\
    forall fan, entries dest fan = filed shortPath fans subtree fan.
Proof.
  intros Hsub. unfold getPathsFromIface. rewrite Hsub. simpl.
  destruct (forPaths_run shortPath fans subtree ∅) as [dest [Hrun [Ht He]]].
  exists dest. split; [exact Hrun|]. split.
  - apply Ht. intros fan. by rewrite lookup_empty.
  - intros fan. rewrite He. unfold entries. by rewrite lookup_empty.
Qed.

(** X13.  When the mapper answers, [getPathsFromIface] returns a map in which
    each fan has exactly the paths of the subtree that are filed under it,
    in the order of the subtree, each as many times as the fan occurs in
    the list of fans; a fan with no such path has no entry at all. *)
Theorem getPathsFromIface_files {bus : SDBusPlus} (root iface : string)
    (fans : list string) (shortPath : bool) (subtree : list string) :
  getSubTreePathsRaw root iface 0 = Ok subtree ->
  exists dest,
    getPathsFromIface root iface fans shortPath = Ok dest /\
    forall fan,
      dest !! fan = match filed shortPath fans subtree fan with
                    | [] => None
                    | l => Some l
                    end.
Proof.
  intros Hsub.
  destruct (getPathsFromIface_run root iface fans shortPath subtree Hsub)
    as [dest [Hrun [Ht He]]].
  exists dest. split; [exact Hrun|]. intros fan.
  specialize (He fan). specialize (Ht fan). unfold entries in He.
  destruct (dest !! fan) as [l|]; simpl in He; rewrite <- He.
  - by destruct l.
  - done.
Qed.

Lemma copies_positive fan fans : 0 < copies fan fans -> fan ∈ fans.
Proof.
  induction fans as [|f fans IH]; simpl; [lia|].
  case_bool_decide as H.
  - subst. intros _. apply list_elem_of_here.
  - intros Hc. apply list_elem_of_further, IH. lia.
Qed.

Lemma filed_sound shortPath fans subtree fan p :
  p ∈ filed shortPath fans subtree fan ->
  fan ∈ fans /\ p ∈ subtree /\ files shortPath fan p = true.
Proof.
  unfold filed. intros H. apply list_elem_of_In, in_flat_map in H.
  destruct H as [q [Hq Hin]].
  destruct (files shortPath fan q) eqn:Hf; [|done].
  apply list_elem_of_In in Hin.
  apply elem_of_replicate in Hin as [-> Hn].
  split; [|split].
  - apply copies_positive. lia.
  - by apply list_elem_of_In.
  - done.
Qed.

(** X14.  Every key of the map [getPathsFromIface] returns is one of the fans
    asked for, and every path under a key comes from the subtree and is
    filed under that fan: with [shortPath] its last token is the fan name,
    without it the path contains the fan name followed by an underscore. *)
Theorem getPathsFromIface_sound {bus : SDBusPlus} (root iface : string)
    (fans : list string) (shortPath : bool) (subtree : list string)
    (dest : gmap string (list string)) (fan : string) (l : list string) :
  getSubTreePathsRaw root iface 0 = Ok subtree ->
  getPathsFromIface root iface fans shortPath = Ok dest ->
  dest !! fan = Some l ->
  l <> [] /\ fan ∈ fans /\
  forall p, p ∈ l ->
    p ∈ subtree /\
    (if shortPath then justFanName p = Ok fan
     else find (fan +:+ "_") p <> None).
Proof.
  intros Hsub Hrun Hl.
  destruct (getPathsFromIface_run root iface fans shortPath subtree Hsub)
    as [dest' [Hrun' [Ht He]]].
  rewrite Hrun in Hrun'. injection Hrun' as <-.
  specialize (He fan). unfold entries in He. rewrite Hl in He. simpl in He.
  assert (l <> []) as Hne by (intros ->; by apply (Ht fan)).
  split; [exact Hne|]. split.
  - destruct l as [|p l]; [done|].
    apply (filed_sound shortPath fans subtree fan p).
    rewrite <- He. apply list_elem_of_here.
  - intros p Hp. rewrite He in Hp.
    destruct (filed_sound _ _ _ _ _ Hp) as [_ [Hs Hf]].
    split; [exact Hs|]. unfold files in Hf. destruct shortPath.
    + apply bool_decide_eq_true in Hf. subst fan.
      apply justFanName_lastToken.
    + by apply bool_decide_eq_true in Hf.
Qed.

(** ** loadDBusData *)

Lemma mapM_length {A B} (f : A -> Res B) (l : list A) (ys : list B) :
  mapM f l = Ok ys -> length ys = length l.
Proof.
  revert ys. induction l as [|x l IH]; intros ys; simpl.
  - by intros [= <-].
  - destruct (f x) as [y|t]; simpl; [|done].
    destruct (mapM f l) as [ys'|t]; simpl; [|done].
    intros [= <-]. simpl. by rewrite (IH ys').
Qed.

Lemma loadDBusData_parts {bus : SDBusPlus} (names : list string)
    (pathMap : gmap string (gmap string (list string)))
    (ifaces : gmap string string) (method : string) :
  loadDBusData = Ok (names, pathMap, ifaces, method) ->
  ifaces = interfaces /\
  (exists control,
     getSubTreePathsRaw tachRoot (at_ ifaces (ifaceTypeFromMethod method)) 0
     = Ok control /\
     mapM fanOf control = Ok names) /\
  (method = "RPM" /\ names <> [] \/
   method = "PWM" /\
   getSubTreePathsRaw tachRoot "xyz.openbmc_project.Control.FanSpeed" 0
   = Ok []) /\
  (exists tach inventory opstatus,
     getPathsFromIface tachRoot "xyz.openbmc_project.Sensor.Value" names false
     = Ok tach /\
     getPathsFromIface boardRoot "xyz.openbmc_project.Inventory.Item" names
                       true = Ok inventory /\
     getPathsFromIface boardRoot
       "xyz.openbmc_project.State.Decorator.OperationalStatus" names true
     = Ok opstatus /\
     pathMap !! "tach" = Some tach /\
     pathMap !! "inventory" = Some inventory /\
     pathMap !! "opstatus" = Some opstatus).
Proof.
  unfold loadDBusData.
  change (at_ paths "tach") with tachRoot.
  change (at_ paths "motherboard") with boardRoot.
  change (at_ interfaces "FanSpeed")
    with "xyz.openbmc_project.Control.FanSpeed".
  change (at_ interfaces "FanPwm") with "xyz.openbmc_project.Control.FanPwm".
  change (at_ interfaces "SensorValue")
    with "xyz.openbmc_project.Sensor.Value".
  change (at_ interfaces "Item") with "xyz.openbmc_project.Inventory.Item".
  change (at_ interfaces "OpStatus")
    with "xyz.openbmc_project.State.Decorator.OperationalStatus".
  destruct (getSubTreePathsRaw tachRoot
              "xyz.openbmc_project.Control.FanSpeed" 0) as [rpm|t] eqn:Hrpm;
    simpl; [|done].
  destruct (mapM fanOf rpm) as [names1|t] eqn:Hn1; simpl; [|done].
  destruct (decide (0 = length names1)) as [Hz|Hz]; simpl.
  - destruct (getSubTreePathsRaw tachRoot
                "xyz.openbmc_project.Control.FanPwm" 0) as [pwm|t] eqn:Hpwm;
      simpl; [|done].
    destruct (mapM fanOf pwm) as [names2|t] eqn:Hn2; simpl; [|done].
    destruct names1; [|done]. simpl.
    destruct (getPathsFromIface tachRoot "xyz.openbmc_project.Sensor.Value"
                names2 false) as [tach|t] eqn:H1; simpl; [|done].
    destruct (getPathsFromIface boardRoot
                "xyz.openbmc_project.Inventory.Item" names2 true)
      as [inv|t] eqn:H2; simpl; [|done].
    destruct (getPathsFromIface boardRoot
                "xyz.openbmc_project.State.Decorator.OperationalStatus"
                names2 true) as [ops|t] eqn:H3; simpl; [|done].
    intros Heq; simplify_eq/=.
    split; [done|]. split; [by exists pwm|]. split.
    + right. split; [done|].
      apply mapM_length in Hn1. by destruct rpm.
    + exists tach, inv, ops. by repeat split.
  - destruct (getPathsFromIface tachRoot "xyz.openbmc_project.Sensor.Value"
                names1 false) as [tach|t] eqn:H1; simpl; [|done].
    destruct (getPathsFromIface boardRoot
                "xyz.openbmc_project.Inventory.Item" names1 true)
      as [inv|t] eqn:H2; simpl; [|done].
    destruct (getPathsFromIface boardRoot
                "xyz.openbmc_project.State.Decorator.OperationalStatus"
                names1 true) as [ops|t] eqn:H3; simpl; [|done].
    intros Heq; simplify_eq/=.
    split; [done|]. split; [by exists rpm|]. split.
    + left. split; [done|]. by destruct names.
    + exists tach, inv, ops. by repeat split.
Qed.

(** X15.  When [loadDBusData] returns, the control method it reports names the
    interface on which it found the fans: the fan names are those of the
    paths the mapper lists under the tach root for the interface that
    [ifaceTypeFromMethod] gives for the method, one name per path and in
    that order.  The method is RPM exactly when the FanSpeed interface
    lists a path, and PWM only when it lists none.  The three path maps are
    those [getPathsFromIface] gives for these names. *)
Theorem loadDBusData_method {bus : SDBusPlus} (names : list string)
    (pathMap : gmap string (gmap string (list string)))
    (ifaces : gmap string string) (method : string) :
  loadDBusData = Ok (names, pathMap, ifaces, method) ->
  ifaces = interfaces /\
  (exists control,
     getSubTreePathsRaw tachRoot (at_ ifaces (ifaceTypeFromMethod method)) 0
     = Ok control /\
     mapM fanOf control = Ok names) /\
  (method = "RPM" /\ names <> [] \/
   method = "PWM" /\
   getSubTreePathsRaw tachRoot "xyz.openbmc_project.Control.FanSpeed" 0
   = Ok []) /\
  (exists tach inventory opstatus,
     getPathsFromIface tachRoot "xyz.openbmc_project.Sensor.Value" names false
     = Ok tach /\
     getPathsFromIface boardRoot "xyz.openbmc_project.Inventory.Item" names
                       true = Ok inventory /\
     getPathsFromIface boardRoot
       "xyz.openbmc_project.State.Decorator.OperationalStatus" names true
     = Ok opstatus /\
     pathMap !! "tach" = Some tach /\
     pathMap !! "inventory" = Some inventory /\
     pathMap !! "opstatus" = Some opstatus).
Proof. apply loadDBusData_parts. Qed.

Lemma mapM_elem {A B} (f : A -> Res B) (l : list A) (ys : list B) x y :
  mapM f l = Ok ys -> x ∈ l -> f x = Ok y -> y ∈ ys.
Proof.
  revert ys. induction l as [|a l IH]; intros ys; simpl.
  - intros _ Hx. by apply elem_of_nil in Hx.
  - destruct (f a) as [b|t] eqn:Ha; simpl; [|done].
    destruct (mapM f l) as [ys'|t]; simpl; [|done].
    intros [= <-] Hx Hy. apply elem_of_cons in Hx as [->|Hx].
    + rewrite Hy in Ha. injection Ha as ->. apply list_elem_of_here.
    + apply list_elem_of_further. by apply (IH ys').
Qed.

Lemma copies_elem fan fans : fan ∈ fans -> 0 < copies fan fans.
Proof.
  induction fans as [|f fans IH]; simpl.
  - intros H. by apply elem_of_nil in H.
  - intros [->|H]%elem_of_cons.
    + rewrite bool_decide_eq_true_2 by done. lia.
    + specialize (IH H). lia.
Qed.

Lemma filed_complete shortPath fans subtree fan p :
  fan ∈ fans -> p ∈ subtree -> files shortPath fan p = true ->
  p ∈ filed shortPath fans subtree fan.
Proof.
  intros Hf Hp Hfiles. unfold filed.
  apply list_elem_of_In, in_flat_map. exists p.
  split; [by apply list_elem_of_In|]. rewrite Hfiles.
  apply list_elem_of_In, elem_of_replicate. split; [done|].
  apply copies_elem in Hf. lia.
Qed.

(** X16.  From the control paths to the tach map.  When [loadDBusData] returns,
    every control path of the form fan name, underscore, rotor suffix that
    the mapper also lists as a sensor is in the tach map under the fan name
    it gave: for such a fan the first tach path, which [status] and [get]
    read the target from, exists. *)
Theorem loadDBusData_files_control_paths {bus : SDBusPlus}
    (names : list string)
    (pathMap : gmap string (gmap string (list string)))
    (ifaces : gmap string string) (method : string)
    (control sensors : list string) (dir name rotor : string) :
  loadDBusData = Ok (names, pathMap, ifaces, method) ->
  getSubTreePathsRaw tachRoot (at_ ifaces (ifaceTypeFromMethod method)) 0
  = Ok control ->
  getSubTreePathsRaw tachRoot "xyz.openbmc_project.Sensor.Value" 0
  = Ok sensors ->
  rfind "/" name = None ->
  rfind "/" rotor = None ->
  rfind "_" rotor = None ->
  let path := dir +:+ "/" +:+ name +:+ "_" +:+ rotor in
  path ∈ control ->
  path ∈ sensors ->
  name ∈ names /\
  exists tach l,
    pathMap !! "tach" = Some tach /\ tach !! name = Some l /\ path ∈ l.
Proof.
  intros Hload Hctl Hsens Hn Hr Hu path Hpc Hps.
  destruct (loadDBusData_parts names pathMap ifaces method Hload)
    as [_ [[control' [Hctl' Hnames]] [_ [tach [inv [ops [Ht [_ [_ [Hpm _]]]]]]]]]].
  rewrite Hctl in Hctl'. injection Hctl' as <-.
  destruct (rotor_path_fan dir name rotor Hn Hr Hu) as [Hfan Hfiles].
  assert (name ∈ names) as Hin by exact (mapM_elem _ _ _ _ _ Hnames Hpc Hfan).
  split; [exact Hin|].
  destruct (getPathsFromIface_run tachRoot "xyz.openbmc_project.Sensor.Value"
              names false sensors Hsens) as [tach' [Hrun [Htidy He]]].
  rewrite Ht in Hrun. injection Hrun as <-.
  pose proof (filed_complete false names sensors name path Hin Hps Hfiles)
    as Hfiled.
  rewrite <- He in Hfiled. unfold entries in Hfiled.
  destruct (tach !! name) as [l|] eqn:Hl.
  - exists tach, l. by repeat split.
  - simpl in Hfiled. by apply elem_of_nil in Hfiled.
Qed.

(** ** getStates *)

(** X17.  A failure of the systemd query stays inside [getStates]: when the call
    throws an exception, or lists no unit, the three service states are
    empty, one line is written (to the error stream in the first case), and
    the three D-Bus states are still read and returned in the order BMC,
    chassis power, host. *)
Theorem getStates_contains_systemd_failure {bus : SDBusPlus}
    (console : list Output) (bmc power host : string) :
  getPropertyString "/xyz/openbmc_project/state/bmc0"
    "xyz.openbmc_project.State.BMC" "CurrentBMCState" = Ok bmc ->
  getPropertyString "/xyz/openbmc_project/state/chassis0"
    "xyz.openbmc_project.State.Chassis" "CurrentPowerState" = Ok power ->
  getPropertyString "/xyz/openbmc_project/state/host0"
    "xyz.openbmc_project.State.Host" "CurrentHostState" = Ok host ->
  (forall what,
     listUnitsByNames [fanControlService] = Raise (StdException what) ->
     getStates console
     = (Ok [""; ""; ""; bmc; power; host],
        console ++
        [Cerr ("Failure retrieving phosphor-fan-control states: " +:+ what)]))
  /\
  (listUnitsByNames [fanControlService] = Ok [] ->
   getStates console
   = (Ok [""; ""; ""; bmc; power; host],
      console ++
      [Cout "No units found for systemd service: phosphor-fan-control@0.service"]))
  /\
  (forall u rest,
     listUnitsByNames [fanControlService] = Ok (u :: rest) ->
     getStates console
     = (Ok [unitLoadState u; unitActiveState u; unitSubState u;
            bmc; power; host],
        console)).
Proof.
  intros Hb Hp Hh. unfold getStates, unitStates.
  split; [|split].
  - intros what ->. by rewrite Hb, Hp, Hh.
  - intros ->. by rewrite Hb, Hp, Hh.
  - intros u rest ->. by rewrite Hb, Hp, Hh.
Qed.

(** X18.  A failure of one of the three D-Bus reads is not caught: unless the
    systemd query threw something that is no exception, [getStates] ends
    with what the first failing read threw, in the order BMC, chassis power,
    host, and the states read before it are lost. *)
Theorem getStates_property_failure_escapes {bus : SDBusPlus}
    (console : list Output) (t : Thrown) :
  listUnitsByNames [fanControlService] <> Raise OtherThrown ->
  let rb := getPropertyString "/xyz/openbmc_project/state/bmc0"
              "xyz.openbmc_project.State.BMC" "CurrentBMCState" in
  let rp := getPropertyString "/xyz/openbmc_project/state/chassis0"
              "xyz.openbmc_project.State.Chassis" "CurrentPowerState" in
  let rh := getPropertyString "/xyz/openbmc_project/state/host0"
              "xyz.openbmc_project.State.Host" "CurrentHostState" in
  (rb = Raise t \/
   (exists b, rb = Ok b) /\ rp = Raise t \/
   (exists b, rb = Ok b) /\ (exists p, rp = Ok p) /\ rh = Raise t) ->
  fst (getStates console) = Raise t.
Proof.
  intros Hsys rb rp rh Hfail. unfold getStates, unitStates.
  assert (forall (x : string * string * string) (c : list Output),
            fst (let '(loaded, active, running) := x in
                 (b <~ rb ;; p <~ rp ;; h <~ rh ;;
                  Ok [loaded; active; running; b; p; h], c))
            = Raise t) as Hreads.
  { intros [[l a] r] c. simpl.
    destruct Hfail as [->|[[[b ->] ->]|[[b ->] [[p ->] ->]]]]; done. }
  destruct (listUnitsByNames [fanControlService]) as [[|u us]|[what|]].
  - apply (Hreads ("", "", "")).
  - apply (Hreads (unitLoadState u, unitActiveState u, unitSubState u)).
  - apply (Hreads ("", "", "")).
  - done.
Qed.

(** ** The statements at work on the example bus *)

Lemma justFanName_join_witness :
  justFanName (tachRoot +:+ "/" +:+ "fan0_0") = Ok "fan0_0".
Proof. apply (justFanName_join tachRoot "fan0_0"). reflexivity. Defined.

Example justFanName_no_slash : justFanName "fan0_0" = Ok "".
Proof. reflexivity. Qed.

Example justFanName_trailing_slash : justFanName "/sensors/" = Ok "".
Proof. reflexivity. Qed.

Lemma fanOf_rotor_path_witness :
  fanOf (tachRoot +:+ "/" +:+ "fan_rear" +:+ "_" +:+ "1") = Ok "fan_rear" /\
  files false "fan_rear" (tachRoot +:+ "/" +:+ "fan_rear" +:+ "_" +:+ "1")
  = true.
Proof. apply (fanOf_rotor_path tachRoot "fan_rear" "1"); reflexivity. Defined.

Lemma getPathsFromIface_files_witness :
  exists dest,
    getPathsFromIface (bus := demoBus) tachRoot
      "xyz.openbmc_project.Sensor.Value" ["fan0"; "fan1"; "fan0"] false
    = Ok dest /\
    forall fan,
      dest !! fan =
        match filed false ["fan0"; "fan1"; "fan0"]
                [tachRoot +:+ "/fan0_0"; tachRoot +:+ "/fan0_1";
                 tachRoot +:+ "/fan1_0"; tachRoot +:+ "/fan1_1"] fan with
        | [] => None
        | l => Some l
        end.
Proof.
  apply (getPathsFromIface_files (bus := demoBus)). reflexivity.
Defined.

Lemma getPathsFromIface_sound_witness :
  [tachRoot +:+ "/fan1_0"; tachRoot +:+ "/fan1_1"] <> [] /\
  "fan1" ∈ ["fan0"; "fan1"] /\
  forall p, p ∈ [tachRoot +:+ "/fan1_0"; tachRoot +:+ "/fan1_1"] ->
    p ∈ [tachRoot +:+ "/fan0_0"; tachRoot +:+ "/fan0_1";
         tachRoot +:+ "/fan1_0"; tachRoot +:+ "/fan1_1"] /\
    find ("fan1" +:+ "_") p <> None.
Proof.
  apply (getPathsFromIface_sound (bus := demoBus) tachRoot
           "xyz.openbmc_project.Sensor.Value" ["fan0"; "fan1"] false
           [tachRoot +:+ "/fan0_0"; tachRoot +:+ "/fan0_1";
            tachRoot +:+ "/fan1_0"; tachRoot +:+ "/fan1_1"]
           demoTach "fan1").
  - reflexivity.
  - vm_compute. reflexivity.
  - vm_compute. reflexivity.
Defined.

Lemma loadDBusData_method_witness :
  exists control,
    getSubTreePathsRaw (SDBusPlus := demoBus) tachRoot
      (at_ (snd (fst demoLoaded)) (ifaceTypeFromMethod (snd demoLoaded))) 0
    = Ok control /\
    mapM fanOf control = Ok (fst (fst (fst demoLoaded))).
Proof.
  apply (loadDBusData_method (bus := demoBus)
           (fst (fst (fst demoLoaded))) (snd (fst (fst demoLoaded)))
           (snd (fst demoLoaded)) (snd demoLoaded)).
  vm_compute. reflexivity.
Defined.

Lemma loadDBusData_files_control_paths_witness :
  "fan1" ∈ fst (fst (fst demoLoaded)) /\
  exists tach l,
    snd (fst (fst demoLoaded)) !! "tach" = Some tach /\
    tach !! "fan1" = Some l /\
    (tachRoot +:+ "/" +:+ "fan1" +:+ "_" +:+ "0") ∈ l.
Proof.
  apply (loadDBusData_files_control_paths (bus := demoBus)
           (fst (fst (fst demoLoaded))) (snd (fst (fst demoLoaded)))
           (snd (fst demoLoaded)) (snd demoLoaded)
           [tachRoot +:+ "/fan0_0"; tachRoot +:+ "/fan1_0"]
           [tachRoot +:+ "/fan0_0"; tachRoot +:+ "/fan0_1";
            tachRoot +:+ "/fan1_0"; tachRoot +:+ "/fan1_1"]
           tachRoot "fan1" "0").
  - vm_compute. reflexivity.
  - vm_compute. reflexivity.
  - vm_compute. reflexivity.
  - reflexivity.
  - reflexivity.
  - reflexivity.
  - apply list_elem_of_further, list_elem_of_here.
  - apply list_elem_of_further, list_elem_of_further, list_elem_of_here.
Defined.

Example loadDBusData_on_demo_bus :
  fst (fst (fst demoLoaded)) = ["fan0"; "fan1"] /\
  snd demoLoaded = "RPM" /\
  (snd (fst (fst demoLoaded)) !! "tach") ≫= (.!! "fan1")
  = Some [tachRoot +:+ "/fan1_0"; tachRoot +:+ "/fan1_1"] /\
  (snd (fst (fst demoLoaded)) !! "inventory") ≫= (.!! "fan1")
  = Some [boardRoot +:+ "/fan1"].
Proof. vm_compute. repeat split. Qed.

Lemma getStates_contains_systemd_failure_witness :
  getStates (bus := quietSystemd) []
  = (Ok [""; ""; ""; "CurrentBMCState"; "CurrentPowerState";
         "CurrentHostState"],
     [] ++
     [Cerr ("Failure retrieving phosphor-fan-control states: " +:+
            "timed out")]).
Proof.
  apply (getStates_contains_systemd_failure (bus := quietSystemd) []
           "CurrentBMCState" "CurrentPowerState" "CurrentHostState");
    reflexivity.
Defined.

Lemma getStates_property_failure_escapes_witness :
  fst (getStates (bus := demoBus) [])
  = Raise (StdException "no such property").
Proof.
  apply (getStates_property_failure_escapes (bus := demoBus) []).
  - discriminate.
  - right. right. split; [by eexists|]. split; [by eexists|]. reflexivity.
Defined.

Example getPathsFromIface_twice_listed :
  (fun dest => dest ≫= (.!! "fan0")) 
    (match getPathsFromIface (bus := demoBus) tachRoot
             "xyz.openbmc_project.Sensor.Value" ["fan0"; "fan1"; "fan0"]
             false with
     | Ok dest => Some dest
     | Raise _ => None
     end)
  = Some [tachRoot +:+ "/fan0_0"; tachRoot +:+ "/fan0_0";
          tachRoot +:+ "/fan0_1"; tachRoot +:+ "/fan0_1"].
Proof. vm_compute. reflexivity. Qed.

End FanCtlSpec.

(* ===================================================================== *)
(** * Properties of the fan of a zone *)
(* ===================================================================== *)

Module FanSpec.
Import Fan.

Lemma written_app (t1 t2 : list Obs) :
  written (t1 ++ t2) = written t1 ++ written t2.
Proof. apply omap_app. Qed.

Lemma sensor_path_not_empty (s : string) : FAN_SENSOR_PATH +:+ s <> "".
Proof. unfold FAN_SENSOR_PATH. discriminate. Qed.

Lemma foldl_addSensor (l : list string) :
  forall (p0 : string) (acc : list string),
    foldl addSensor (p0, acc) l
    = (default p0 ((fun s => FAN_SENSOR_PATH +:+ s) <$> last l),
       acc ++ ((fun s => FAN_SENSOR_PATH +:+ s) <$> l)).
Proof.
  induction l as [|s l IH]; intros p0 acc; simpl.
  - by rewrite app_nil_r.
  - change (addSensor (p0, acc) s)
      with (FAN_SENSOR_PATH +:+ s, acc ++ [FAN_SENSOR_PATH +:+ s]).
    rewrite IH, <- app_assoc. simpl. f_equal.
    destruct l as [|x l]; [done|].
    rewrite last_cons_cons.
    destruct (proj2 (last_is_Some (x :: l))) as [y ->]; done.
Qed.

Section FanFacts.
Context {Bus : Type} {api : FanBus Bus}.

(** X19.  The constructor keeps one path per sensor, each under the tach root,
    and reads the target once, from the last sensor of the definition.  A
    definition without sensors is built without touching the bus and leaves
    the target unassigned; when the read throws, so does the constructor. *)
Theorem construct_reads_last_sensor (def : FanDefinition) (w : World Bus) :
  (sensorList def = [] ->
   construct def w
   = (Functor.Done (mkFan (fanName def) [] (targetInterface def) None), w)) /\
  (forall init s,
     sensorList def = init ++ [s] ->
     let path := FAN_SENSOR_PATH +:+ s in
     let r := getProperty path (targetInterface def) FAN_TARGET_PROPERTY
                          (theBus w) in
     trace (snd (construct def w))
     = trace w ++ [GetTarget path (targetInterface def) FAN_TARGET_PROPERTY r]
     /\
     fst (construct def w)
     = match r with
       | Functor.Done v =>
           Functor.Done
             (mkFan (fanName def)
                    ((fun s => FAN_SENSOR_PATH +:+ s) <$> sensorList def)
                    (targetInterface def) (Some v))
       | Functor.Threw f => Functor.Threw f
       end).
Proof.
  split.
  - intros Hs. unfold construct. rewrite Hs. simpl. done.
  - intros init s Hs. cbv zeta. unfold construct.
    rewrite foldl_addSensor, Hs, last_snoc. simpl.
    by destruct (getProperty _ _ _ (theBus w)).
Qed.

Lemma setSensors_app (self : Fan) (speed : N) (l1 l2 : list string)
    (w : World Bus) :
  setSensors self speed (l1 ++ l2) w =
    match setSensors self speed l1 w with
    | (Functor.Done _, w1) => setSensors self speed l2 w1
    | (Functor.Threw f, w1) => (Functor.Threw f, w1)
    end.
Proof.
  revert w. induction l1 as [|s l1 IH]; intros w; simpl; [done|].
  unfold getService.
  destruct (utilGetService s (_interface self) (theBus w)) as [svc|f];
    [|done].
  simpl. destruct (callSet _ _ _ _ _ _ _ _) as [[[|]|f] b];
    first [done | apply IH].
Qed.

Lemma setSensors_written (self : Fan) (speed : N) (l : list string) :
  forall w w1,
    setSensors self speed l w = (Functor.Done tt, w1) ->
    written (trace w1)
    = written (trace w) ++ ((fun s => (s, speed)) <$> l).
Proof.
  induction l as [|s l IH]; intros w w1; simpl.
  - intros [= <-]. by rewrite app_nil_r.
  - unfold getService.
    destruct (utilGetService s (_interface self) (theBus w)) as [svc|f];
      [|done].
    simpl. destruct (callSet _ _ _ _ _ _ _ _) as [[[|]|f] b]; try done.
    intros H. rewrite (IH _ _ H). simpl.
    rewrite !written_app. simpl. by rewrite app_nil_r, <- app_assoc.
Qed.

Lemma setSensors_accepted svc accept (self : Fan) (speed : N)
    (l : list string) :
  (forall sensor iface b,
     utilGetService sensor iface b = Functor.Done (svc sensor iface b)) ->
  (forall s sensor i0 m i p v b,
     callSet s sensor i0 m i p v b
     = (Functor.Done false, accept s sensor i0 m i p v b)) ->
  forall w,
    setSensors self speed l w
    = (Functor.Done tt,
       mkWorld (foldl (writeOne svc accept self speed) (theBus w) l)
               (trace w ++ writeObs svc accept self speed (theBus w) l)).
Proof.
  intros Hs Hc. induction l as [|s l IH]; intros w; simpl.
  - rewrite app_nil_r. by destruct w.
  - unfold getService. rewrite Hs. simpl. rewrite Hc. simpl.
    rewrite IH. simpl. unfold writeOne. by rewrite <- !app_assoc.
Qed.

(** X20.  When every service lookup answers and no write is rejected, [setSpeed]
    goes through the sensors of the fan in order: for each it looks the
    service up on the bus as it is then and sends it one Set call for the
    Target property of the interface of the fan with the speed, and the bus
    it leaves is the bus these calls leave, one after the other.  So the
    speed is written to every sensor once; only then the fan takes the
    speed as its target.  A fan without sensors just takes the target. *)
Theorem setSpeed_writes_every_sensor svc accept (self : Fan) (speed : N)
    (w : World Bus) :
  (forall sensor iface b,
     utilGetService sensor iface b = Functor.Done (svc sensor iface b)) ->
  (forall s sensor i0 m i p v b,
     callSet s sensor i0 m i p v b
     = (Functor.Done false, accept s sensor i0 m i p v b)) ->
  let w' :=
    mkWorld (foldl (writeOne svc accept self speed) (theBus w) (_sensors self))
            (trace w ++
             writeObs svc accept self speed (theBus w) (_sensors self)) in
  setSpeed self speed w
  = (Functor.Done tt,
     mkFan (_name self) (_sensors self) (_interface self) (Some speed),
     w') /\
  written (trace w')
  = written (trace w) ++ ((fun s => (s, speed)) <$> _sensors self).
Proof.
  intros Hs Hc w'.
  pose proof (setSensors_accepted svc accept self speed (_sensors self)
                Hs Hc w) as H1.
  fold w' in H1. split.
  - unfold setSpeed. by rewrite H1.
  - by apply (setSensors_written self speed (_sensors self) w).
Qed.

(** X21.  [setSpeed] is not all or nothing.  When the write to one sensor comes
    back as a method error, the sensors before it have been written, the
    sensors after it are not touched, an error is logged for that sensor,
    InternalFailure is thrown, and the fan keeps the target it had. *)
Theorem setSpeed_stops_at_rejected_write (self : Fan) (speed : N)
    (before after : list string) (sensor service : string)
    (w w1 : World Bus) (b : Bus) :
  _sensors self = before ++ sensor :: after ->
  setSensors self speed before w = (Functor.Done tt, w1) ->
  utilGetService sensor (_interface self) (theBus w1) = Functor.Done service ->
  callSet service sensor PROPERTY_INTERFACE "Set" (_interface self)
          FAN_TARGET_PROPERTY speed (theBus w1) = (Functor.Done true, b) ->
  setSpeed self speed w
  = (Functor.Threw InternalFailure, self,
     mkWorld b
       (trace w1 ++
        [GetService sensor (_interface self) (Functor.Done service);
         CallSet service sensor (_interface self) FAN_TARGET_PROPERTY speed
                 (Functor.Done true);
         LogErr "Failed call to set fan speed " sensor])) /\
  written (trace w1)
  = written (trace w) ++ ((fun s => (s, speed)) <$> before).
Proof.
  intros Hsens Hbefore Hsvc Hcall. split.
  - unfold setSpeed. rewrite Hsens, setSensors_app, Hbefore. simpl.
    unfold getService. rewrite Hsvc. simpl. rewrite Hcall. simpl.
    by rewrite <- !app_assoc.
  - by apply (setSensors_written self speed before w).
Qed.

End FanFacts.

(** ** The statements at work on the example bus *)

Lemma construct_reads_last_sensor_witness :
  fst (construct (api := demoApi)
         (mkFanDefinition "fan0" ["rotor0"; "rotor1"]
                          "xyz.openbmc_project.Control.FanSpeed")
         healthyWorld)
  = Functor.Done
      (mkFan "fan0"
         [FAN_SENSOR_PATH +:+ "rotor0"; FAN_SENSOR_PATH +:+ "rotor1"]
         "xyz.openbmc_project.Control.FanSpeed" (Some 4200%N)).
Proof.
  destruct (construct_reads_last_sensor (api := demoApi)
              (mkFanDefinition "fan0" ["rotor0"; "rotor1"]
                               "xyz.openbmc_project.Control.FanSpeed")
              healthyWorld) as [_ H].
  destruct (H ["rotor0"] "rotor1" eq_refl) as [_ H2]. exact H2.
Defined.

Lemma setSpeed_writes_every_sensor_witness :
  setSpeed (api := steadyApi) demoFan 5000%N (mkWorld [] [])
  = (Functor.Done tt,
     mkFan (_name demoFan) (_sensors demoFan) (_interface demoFan)
           (Some 5000%N),
     mkWorld
       [(FAN_SENSOR_PATH +:+ "rotor0", 5000%N);
        (FAN_SENSOR_PATH +:+ "rotor1", 5000%N);
        (FAN_SENSOR_PATH +:+ "rotor2", 5000%N)]
       (writeObs (fun _ _ _ => "xyz.openbmc_project.Hwmon-1")
                 (fun _ sensor _ _ _ _ value b => b ++ [(sensor, value)])
                 demoFan 5000%N [] (_sensors demoFan))).
Proof.
  apply (setSpeed_writes_every_sensor (api := steadyApi)
           (fun _ _ _ => "xyz.openbmc_project.Hwmon-1")
           (fun _ sensor _ _ _ _ value b => b ++ [(sensor, value)])
           demoFan 5000%N (mkWorld [] [])); reflexivity.
Defined.

Example setSpeed_calls :
  trace (snd (setSpeed (api := steadyApi) demoFan 5000%N (mkWorld [] [])))
  = [GetService (FAN_SENSOR_PATH +:+ "rotor0")
       "xyz.openbmc_project.Control.FanSpeed"
       (Functor.Done "xyz.openbmc_project.Hwmon-1");
     CallSet "xyz.openbmc_project.Hwmon-1" (FAN_SENSOR_PATH +:+ "rotor0")
       "xyz.openbmc_project.Control.FanSpeed" "Target" 5000%N
       (Functor.Done false);
     GetService (FAN_SENSOR_PATH +:+ "rotor1")
       "xyz.openbmc_project.Control.FanSpeed"
       (Functor.Done "xyz.openbmc_project.Hwmon-1");
     CallSet "xyz.openbmc_project.Hwmon-1" (FAN_SENSOR_PATH +:+ "rotor1")
       "xyz.openbmc_project.Control.FanSpeed" "Target" 5000%N
       (Functor.Done false);
     GetService (FAN_SENSOR_PATH +:+ "rotor2")
       "xyz.openbmc_project.Control.FanSpeed"
       (Functor.Done "xyz.openbmc_project.Hwmon-1");
     CallSet "xyz.openbmc_project.Hwmon-1" (FAN_SENSOR_PATH +:+ "rotor2")
       "xyz.openbmc_project.Control.FanSpeed" "Target" 5000%N
       (Functor.Done false)].
Proof. vm_compute. reflexivity. Qed.

Example setSpeed_then_read_back :
  (fun r => getProperty (FanBus := steadyApi) (FAN_SENSOR_PATH +:+ "rotor2")
              "xyz.openbmc_project.Control.FanSpeed" FAN_TARGET_PROPERTY
              (theBus (snd r)))
    (setSpeed (api := steadyApi) demoFan 5000%N (mkWorld [] []))
  = Functor.Done 5000%N.
Proof. vm_compute. reflexivity. Qed.

Lemma setSpeed_stops_at_rejected_write_witness :
  fst (setSpeed (api := demoApi) demoFan 5000%N demoWorld)
  = (Functor.Threw InternalFailure, demoFan) /\
  written (trace (snd (setSpeed (api := demoApi) demoFan 5000%N demoWorld)))
  = [(FAN_SENSOR_PATH +:+ "rotor0", 5000%N);
     (FAN_SENSOR_PATH +:+ "rotor1", 5000%N)] /\
  targets (theBus (snd (setSpeed (api := demoApi) demoFan 5000%N demoWorld)))
  = [(FAN_SENSOR_PATH +:+ "rotor0", 5000%N)].
Proof.
  destruct (setSpeed_stops_at_rejected_write (api := demoApi) demoFan 5000%N
              [FAN_SENSOR_PATH +:+ "rotor0"] [FAN_SENSOR_PATH +:+ "rotor2"]
              (FAN_SENSOR_PATH +:+ "rotor1") "xyz.openbmc_project.Hwmon-1"
              demoWorld
              (snd (setSensors (api := demoApi) demoFan 5000%N
                      [FAN_SENSOR_PATH +:+ "rotor0"] demoWorld))
              (mkDemoBus [(FAN_SENSOR_PATH +:+ "rotor0", 5000%N)]
                         [FAN_SENSOR_PATH +:+ "rotor1"]))
    as [H _]; try (vm_compute; reflexivity).
  rewrite H. vm_compute. repeat split.
Defined.

End FanSpec.
